(** * NOTIS PRO: batch lifecycle, reconciliation, partition and aggregation

    A shallow embedding of the engine that lives inside [App.tsx]: the
    zod schemas, the store callbacks of the [App] component, the submit
    handlers of the modals, the memoised Active/Archived partition and
    the dashboard aggregator.

    Conventions of the embedding.
    - A JS [number] that holds a document count, a fee or an instant is
      an integer ([Z]); on integers of that size JS arithmetic is exact.
    - A date string is represented by the instant it denotes, in
      milliseconds since the epoch (what [new Date(s).getTime()]
      returns).  A date field of a form is [None] when the input is
      empty (the string of length 0) and [Some t] otherwise.
    - An optional property ([p?: T]) is an [option]; [None] is
      [undefined].
    - A React state setter called with an updater is the updater applied
      to the state; the setters called by one callback form one
      transition. *)

From Stdlib Require Import ZArith QArith Lia Permutation Sorted.
From stdpp Require Import base option list strings gmap pretty.

Local Close Scope Q_scope.
Local Open Scope Z_scope.

(** ** Constants *)

Definition DELIVERY_FEE : Z := 3.
Definition ARCHIVE_DELAY_DAYS : Z := 4.

(** ** Data model ([types.ts]) *)

Module DeliveryPerson.
Record t := mk {
  id : string;
  name : string;
  cpf : option string;
  address : option string;
  phone : option string;
  whatsapp : option string;
  pix : option string;
  route : option string
}.
End DeliveryPerson.

Inductive Status := pending | finalized.

#[global] Instance Status_eq_dec : EqDecision Status.
Proof. solve_decision. Defined.

Module Batch.
Record t := mk {
  id : string;
  deliveryPersonId : string;
  pgfnInitial : Z;
  normalInitial : Z;
  departureDatetime : Z;
  estimatedReturnDate : Z;
  status : Status;
  description : string;
  (* Finalized fields *)
  pgfnDelivered : option Z;
  pgfnReturned : option Z;
  pgfnAbsent : option Z;
  normalDelivered : option Z;
  normalReturned : option Z;
  normalAbsent : option Z;
  totalValue : option Z;
  returnDatetime : option Z
}.
End Batch.

#[global] Instance Batch_eq_dec : EqDecision Batch.t.
Proof. solve_decision. Defined.

#[global] Instance DeliveryPerson_eq_dec : EqDecision DeliveryPerson.t.
Proof. solve_decision. Defined.

(** JS truthiness of an optional number ([undefined] and [0] are falsy)
    and the idiom [x || 0]. *)
Definition truthy (x : option Z) : bool :=
  match x with
  | Some v => negb (v =? 0)
  | None => false
  end.

Definition or0 (x : option Z) : Z :=
  match x with
  | Some v => if v =? 0 then 0 else v
  | None => 0
  end.

(** ** Application state and completions

    The part of the [App] component's state the engine works on, plus
    the [errors] state of the modal whose handler runs (the set of keys
    of the [Record<string, string>]; the messages are not modelled). *)

Record AppState := mkState {
  batches : list Batch.t;
  deliveryPeople : list DeliveryPerson.t;
  errors : gset string
}.

Definition setBatches (f : list Batch.t → list Batch.t) (st : AppState) : AppState :=
  {| batches := f (batches st); deliveryPeople := deliveryPeople st; errors := errors st |}.

Definition setDeliveryPeople (f : list DeliveryPerson.t → list DeliveryPerson.t)
    (st : AppState) : AppState :=
  {| batches := batches st; deliveryPeople := f (deliveryPeople st); errors := errors st |}.

Definition setErrors (e : gset string) (st : AppState) : AppState :=
  {| batches := batches st; deliveryPeople := deliveryPeople st; errors := e |}.

(** A call either returns, leaving a new state, or throws. *)
Inductive completion :=
  | Normal (st : AppState)
  | Throw (e : string).

(** ** Zod schemas

    [safeParse] yields the parsed data or the issues; an issue is
    represented by the first segment of its path, which is the key
    [getZodFieldErrors] files it under.  The form fields reach the
    schemas already coerced ([z.coerce.number()] on the value of a
    numeric input). *)

Inductive SafeParse (A : Type) :=
  | Success (data : A)
  | Failure (issues : list string).
Arguments Success {A} data.
Arguments Failure {A} issues.

Definition getZodFieldErrors (issues : list string) : gset string :=
  list_to_set issues.

(** [z.string().min(1)] on a key, for a text field and for a date field,
    and [z.coerce.number().min(0)] on a key. *)
Definition min1 (key : string) (s : string) : list string :=
  if decide (s = "") then [key] else [].

Definition min1_date (key : string) (v : option Z) : list string :=
  match v with Some _ => [] | None => [key] end.

Definition min0 (key : string) (n : Z) : list string :=
  if n <? 0 then [key] else [].

(** *** deliveryPersonSchema *)

Record PersonForm := mkPersonForm {
  pf_name : string;
  pf_cpf : string;
  pf_address : string;
  pf_phone : string;
  pf_whatsapp : string;
  pf_pix : string;
  pf_route : string
}.

Definition deliveryPersonSchema (data : PersonForm) : SafeParse PersonForm :=
  match min1 "name" (pf_name data) with
  | [] => Success data
  | issues => Failure issues
  end.

(** *** newBatchSchema *)

Record NewBatchForm := mkNewBatchForm {
  nb_deliveryPersonId : string;
  nb_pgfnInitial : Z;
  nb_normalInitial : Z;
  nb_departureDatetime : option Z;
  nb_estimatedReturnDate : option Z;
  nb_description : string
}.

Record NewBatchData := mkNewBatchData {
  nd_deliveryPersonId : string;
  nd_pgfnInitial : Z;
  nd_normalInitial : Z;
  nd_departureDatetime : Z;
  nd_estimatedReturnDate : Z;
  nd_description : string
}.

(** The issues of the object schema, in the order of its keys. *)
Definition newBatch_object (data : NewBatchForm) : list string :=
  min1 "deliveryPersonId" (nb_deliveryPersonId data)
  ++ min0 "pgfnInitial" (nb_pgfnInitial data)
  ++ min0 "normalInitial" (nb_normalInitial data)
  ++ min1_date "departureDatetime" (nb_departureDatetime data)
  ++ min1_date "estimatedReturnDate" (nb_estimatedReturnDate data).

(** [.refine(data => data.pgfnInitial > 0 || data.normalInitial > 0,
    { path: ["pgfnInitial"] })] *)
Definition newBatch_refine (data : NewBatchForm) : list string :=
  if (0 <? nb_pgfnInitial data) || (0 <? nb_normalInitial data)
  then [] else ["pgfnInitial"].

Definition newBatchSchema (data : NewBatchForm) : SafeParse NewBatchData :=
  match newBatch_object data ++ newBatch_refine data,
        nb_departureDatetime data, nb_estimatedReturnDate data with
  | [], Some dep, Some est =>
      Success {| nd_deliveryPersonId := nb_deliveryPersonId data;
                 nd_pgfnInitial := nb_pgfnInitial data;
                 nd_normalInitial := nb_normalInitial data;
                 nd_departureDatetime := dep;
                 nd_estimatedReturnDate := est;
                 nd_description := nb_description data |}
  | issues, _, _ => Failure issues
  end.

(** *** createFinalizeBatchSchema and createEditBatchSchema *)

Record Counts := mkCounts {
  c_pgfnDelivered : Z;
  c_pgfnReturned : Z;
  c_pgfnAbsent : Z;
  c_normalDelivered : Z;
  c_normalReturned : Z;
  c_normalAbsent : Z
}.

Record FinalizeForm := mkFinalizeForm {
  ff_returnDatetime : option Z;
  ff_counts : Counts
}.

Record FinalizeData := mkFinalizeData {
  fd_returnDatetime : Z;
  fd_counts : Counts
}.

Definition counts_object (data : Counts) : list string :=
  min0 "pgfnDelivered" (c_pgfnDelivered data)
  ++ min0 "pgfnReturned" (c_pgfnReturned data)
  ++ min0 "pgfnAbsent" (c_pgfnAbsent data)
  ++ min0 "normalDelivered" (c_normalDelivered data)
  ++ min0 "normalReturned" (c_normalReturned data)
  ++ min0 "normalAbsent" (c_normalAbsent data).

(** The [superRefine] callback: one issue per unbalanced category. *)
Definition conservation_issues (batch : Batch.t) (data : Counts) : list string :=
  (if decide (c_pgfnDelivered data + c_pgfnReturned data + c_pgfnAbsent data
              ≠ Batch.pgfnInitial batch)
   then ["pgfn"] else [])
  ++
  (if decide (c_normalDelivered data + c_normalReturned data + c_normalAbsent data
              ≠ Batch.normalInitial batch)
   then ["normal"] else []).

Definition createFinalizeBatchSchema (batch : Batch.t) (data : FinalizeForm)
    : SafeParse FinalizeData :=
  match min1_date "returnDatetime" (ff_returnDatetime data)
        ++ counts_object (ff_counts data)
        ++ conservation_issues batch (ff_counts data),
        ff_returnDatetime data with
  | [], Some ret => Success {| fd_returnDatetime := ret; fd_counts := ff_counts data |}
  | issues, _ => Failure issues
  end.

(** [createFinalizeBatchSchema(batch).omit({ returnDatetime: true })].
    The receiver is not a plain object schema: it carries the
    conservation refinement.  What [.omit] does on such a schema is
    decided by the zod release the page loads, which is not part of the
    sources: either the call throws (releases in which the refined
    schema has no [omit], a [TypeError], or in which [omit] refuses a
    schema with refinements), or it returns the object schema of the six
    counts with the refinement dropped.  No release keeps the
    refinement. *)
Inductive OmitOnRefined := OmitThrows (e : string) | OmitDropsRefinement.

(** The object schema of the six counts alone. *)
Definition countsSchema (data : Counts) : SafeParse Counts :=
  match counts_object data with
  | [] => Success data
  | issues => Failure issues
  end.

(** [inl e] when the call throws [e]. *)
Definition createEditBatchSchema (omit : OmitOnRefined) (batch : Batch.t)
    : string + (Counts → SafeParse Counts) :=
  match omit with
  | OmitThrows e => inl e
  | OmitDropsRefinement => inr countsSchema
  end.

(** ** [Array.prototype.sort] with a comparator

    The sort is stable; for a comparator that is a consistent ordering
    its result is the one of the stable insertion sort below. *)

Section Sort.
Context {A : Type} (compareFn : A → A → Z).

Fixpoint sort_insert (x : A) (l : list A) : list A :=
  match l with
  | [] => [x]
  | y :: l' => if 0 <? compareFn x y then y :: sort_insert x l' else x :: y :: l'
  end.

Fixpoint Array_sort (l : list A) : list A :=
  match l with
  | [] => []
  | x :: l' => sort_insert x (Array_sort l')
  end.
End Sort.

(** ** The store callbacks of [App] *)

Section App.
(** [String.prototype.localeCompare], which depends on the host's locale. *)
Variable localeCompare : string → string → Z.

Definition byName (a b : DeliveryPerson.t) : Z :=
  localeCompare (DeliveryPerson.name a) (DeliveryPerson.name b).

(** [{ ...person, id }] and [{ ...batch, id }] *)
Definition person_with_id (p : DeliveryPerson.t) (i : string) : DeliveryPerson.t :=
  {| DeliveryPerson.id := i;
     DeliveryPerson.name := DeliveryPerson.name p;
     DeliveryPerson.cpf := DeliveryPerson.cpf p;
     DeliveryPerson.address := DeliveryPerson.address p;
     DeliveryPerson.phone := DeliveryPerson.phone p;
     DeliveryPerson.whatsapp := DeliveryPerson.whatsapp p;
     DeliveryPerson.pix := DeliveryPerson.pix p;
     DeliveryPerson.route := DeliveryPerson.route p |}.

Definition batch_with_id (b : Batch.t) (i : string) : Batch.t :=
  {| Batch.id := i;
     Batch.deliveryPersonId := Batch.deliveryPersonId b;
     Batch.pgfnInitial := Batch.pgfnInitial b;
     Batch.normalInitial := Batch.normalInitial b;
     Batch.departureDatetime := Batch.departureDatetime b;
     Batch.estimatedReturnDate := Batch.estimatedReturnDate b;
     Batch.status := Batch.status b;
     Batch.description := Batch.description b;
     Batch.pgfnDelivered := Batch.pgfnDelivered b;
     Batch.pgfnReturned := Batch.pgfnReturned b;
     Batch.pgfnAbsent := Batch.pgfnAbsent b;
     Batch.normalDelivered := Batch.normalDelivered b;
     Batch.normalReturned := Batch.normalReturned b;
     Batch.normalAbsent := Batch.normalAbsent b;
     Batch.totalValue := Batch.totalValue b;
     Batch.returnDatetime := Batch.returnDatetime b |}.

(** An [Omit<T, 'id'>] argument is a [T] whose [id] is not read.
    [now] is the value of [Date.now()] at the call. *)
Definition addDeliveryPerson (person : DeliveryPerson.t) (now : Z) (st : AppState)
    : completion :=
  let newPerson := person_with_id person (pretty now) in
  Normal (setDeliveryPeople (λ prev, Array_sort byName (prev ++ [newPerson])) st).

Definition updateDeliveryPerson (updatedPerson : DeliveryPerson.t) (st : AppState)
    : completion :=
  Normal (setDeliveryPeople
            (λ prev, Array_sort byName
               ((λ p, if decide (DeliveryPerson.id p = DeliveryPerson.id updatedPerson)
                      then updatedPerson else p) <$> prev)) st).

Definition deleteDeliveryPerson (personId : string) (st : AppState) : completion :=
  Normal (setBatches (λ prev, filter (λ b, Batch.deliveryPersonId b ≠ personId) prev)
            (setDeliveryPeople
               (λ prev, filter (λ p, DeliveryPerson.id p ≠ personId) prev) st)).

Definition addBatch (batch : Batch.t) (now : Z) (st : AppState) : completion :=
  let newBatch := batch_with_id batch (pretty now) in
  Normal (setBatches (λ prev, newBatch :: prev) st).

Definition updateBatch (updatedBatch : Batch.t) (st : AppState) : completion :=
  Normal (setBatches
            (λ prev, (λ b, if decide (Batch.id b = Batch.id updatedBatch)
                           then updatedBatch else b) <$> prev) st).

Definition deleteBatch (batchId : string) (st : AppState) : completion :=
  Normal (setBatches (λ prev, filter (λ b, Batch.id b ≠ batchId) prev) st).
End App.

(** ** The submit handlers of the views and modals

    Each handler parses the form; on failure it stores the field errors
    and returns, on success it calls the store callback it was given
    ([onAdd], [onFinalize], [onEdit]). *)

Section Handlers.
Variable localeCompare : string → string → Z.
Variable omit : OmitOnRefined.

Definition person_of_form (i : string) (data : PersonForm) : DeliveryPerson.t :=
  {| DeliveryPerson.id := i;
     DeliveryPerson.name := pf_name data;
     DeliveryPerson.cpf := Some (pf_cpf data);
     DeliveryPerson.address := Some (pf_address data);
     DeliveryPerson.phone := Some (pf_phone data);
     DeliveryPerson.whatsapp := Some (pf_whatsapp data);
     DeliveryPerson.pix := Some (pf_pix data);
     DeliveryPerson.route := Some (pf_route data) |}.

Definition AddDeliveryPersonView_handleSubmit (personData : PersonForm) (now : Z)
    (st : AppState) : completion :=
  match deliveryPersonSchema personData with
  | Failure issues => Normal (setErrors (getZodFieldErrors issues) st)
  | Success data =>
      addDeliveryPerson localeCompare (person_of_form "" data) now (setErrors ∅ st)
  end.

(** [onEdit({ ...person, ...result.data })] *)
Definition EditDeliveryPersonModal_handleSubmit (person : DeliveryPerson.t)
    (data : PersonForm) (st : AppState) : completion :=
  match deliveryPersonSchema data with
  | Failure issues => Normal (setErrors (getZodFieldErrors issues) st)
  | Success data =>
      updateDeliveryPerson localeCompare
        (person_of_form (DeliveryPerson.id person) data) st
  end.

(** [onAdd({ ...result.data, status: 'pending' })] *)
Definition pending_batch (data : NewBatchData) : Batch.t :=
  {| Batch.id := "";
     Batch.deliveryPersonId := nd_deliveryPersonId data;
     Batch.pgfnInitial := nd_pgfnInitial data;
     Batch.normalInitial := nd_normalInitial data;
     Batch.departureDatetime := nd_departureDatetime data;
     Batch.estimatedReturnDate := nd_estimatedReturnDate data;
     Batch.status := pending;
     Batch.description := nd_description data;
     Batch.pgfnDelivered := None;
     Batch.pgfnReturned := None;
     Batch.pgfnAbsent := None;
     Batch.normalDelivered := None;
     Batch.normalReturned := None;
     Batch.normalAbsent := None;
     Batch.totalValue := None;
     Batch.returnDatetime := None |}.

Definition NewBatchModal_handleSubmit (data : NewBatchForm) (now : Z) (st : AppState)
    : completion :=
  match newBatchSchema data with
  | Failure issues => Normal (setErrors (getZodFieldErrors issues) st)
  | Success data => addBatch (pending_batch data) now st
  end.

Definition totalPaidItems (counts : Counts) : Z :=
  c_pgfnDelivered counts + c_pgfnReturned counts
  + c_normalDelivered counts + c_normalReturned counts.

(** [{ ...batch, status: 'finalized', returnDatetime: ..., ...counts,
    totalValue: totalPaidItems * DELIVERY_FEE }] *)
Definition finalized_batch (batch : Batch.t) (returnDatetime : Z) (counts : Counts)
    : Batch.t :=
  {| Batch.id := Batch.id batch;
     Batch.deliveryPersonId := Batch.deliveryPersonId batch;
     Batch.pgfnInitial := Batch.pgfnInitial batch;
     Batch.normalInitial := Batch.normalInitial batch;
     Batch.departureDatetime := Batch.departureDatetime batch;
     Batch.estimatedReturnDate := Batch.estimatedReturnDate batch;
     Batch.status := finalized;
     Batch.description := Batch.description batch;
     Batch.pgfnDelivered := Some (c_pgfnDelivered counts);
     Batch.pgfnReturned := Some (c_pgfnReturned counts);
     Batch.pgfnAbsent := Some (c_pgfnAbsent counts);
     Batch.normalDelivered := Some (c_normalDelivered counts);
     Batch.normalReturned := Some (c_normalReturned counts);
     Batch.normalAbsent := Some (c_normalAbsent counts);
     Batch.totalValue := Some (totalPaidItems counts * DELIVERY_FEE);
     Batch.returnDatetime := Some returnDatetime |}.

Definition FinalizeBatchModal_handleSubmit (batch : Batch.t) (data : FinalizeForm)
    (st : AppState) : completion :=
  match createFinalizeBatchSchema batch data with
  | Failure issues => Normal (setErrors (getZodFieldErrors issues) st)
  | Success result =>
      updateBatch (finalized_batch batch (fd_returnDatetime result) (fd_counts result)) st
  end.

(** [{ ...batch, ...counts, totalValue: totalPaidItems * DELIVERY_FEE }] *)
Definition edited_batch (batch : Batch.t) (counts : Counts) : Batch.t :=
  {| Batch.id := Batch.id batch;
     Batch.deliveryPersonId := Batch.deliveryPersonId batch;
     Batch.pgfnInitial := Batch.pgfnInitial batch;
     Batch.normalInitial := Batch.normalInitial batch;
     Batch.departureDatetime := Batch.departureDatetime batch;
     Batch.estimatedReturnDate := Batch.estimatedReturnDate batch;
     Batch.status := Batch.status batch;
     Batch.description := Batch.description batch;
     Batch.pgfnDelivered := Some (c_pgfnDelivered counts);
     Batch.pgfnReturned := Some (c_pgfnReturned counts);
     Batch.pgfnAbsent := Some (c_pgfnAbsent counts);
     Batch.normalDelivered := Some (c_normalDelivered counts);
     Batch.normalReturned := Some (c_normalReturned counts);
     Batch.normalAbsent := Some (c_normalAbsent counts);
     Batch.totalValue := Some (totalPaidItems counts * DELIVERY_FEE);
     Batch.returnDatetime := Batch.returnDatetime batch |}.

(** The schema is built inside the handler, so a throwing
    [createEditBatchSchema] makes the handler throw before it touches
    any state. *)
Definition EditBatchModal_handleSubmit (batch : Batch.t) (data : Counts)
    (st : AppState) : completion :=
  match createEditBatchSchema omit batch with
  | inl e => Throw e
  | inr schema =>
      match schema data with
      | Failure issues => Normal (setErrors (getZodFieldErrors issues) st)
      | Success counts => updateBatch (edited_batch batch counts) st
      end
  end.
End Handlers.

(** The keys of [modalState], and the modal a click on a batch card of
    the dashboard opens. *)
Inductive ModalName :=
  | newBatch | finalizeBatch | batchDetails | editBatch | editPerson | confirm.

Definition DashboardView_onBatchClick (b : Batch.t) : ModalName :=
  if decide (Batch.status b = pending) then finalizeBatch else batchDetails.

(** ** Temporal partition ([dashboardBatches] / [archivedBatches]) *)

Definition msPerDay : Z := 1000 * 60 * 60 * 24.

(** The quotient is kept exact; on instants in milliseconds the rounded
    quotient of the source compares with 4 as the exact one does. *)
Definition diffDays (now returnDatetime : Z) : Q :=
  (inject_Z (now - returnDatetime) / inject_Z msPerDay)%Q.

Definition Qgtb (x y : Q) : bool := negb (Qle_bool x y).

Definition partition_visit (now : Z) (acc : list Batch.t * list Batch.t) (batch : Batch.t)
    : list Batch.t * list Batch.t :=
  let '(main, archived) := acc in
  match Batch.status batch, Batch.returnDatetime batch with
  | finalized, Some ret =>
      if Qgtb (diffDays now ret) (inject_Z ARCHIVE_DELAY_DAYS)
      then (main, archived ++ [batch])
      else (main ++ [batch], archived)
  | _, _ => (main ++ [batch], archived)
  end.

Definition sortFn (a b : Batch.t) : Z :=
  Batch.departureDatetime b - Batch.departureDatetime a.

Definition partitionBatches (now : Z) (l : list Batch.t) : list Batch.t * list Batch.t :=
  let '(main, archived) := foldl (partition_visit now) ([], []) l in
  (Array_sort sortFn main, Array_sort sortFn archived).

Definition dashboardBatches (now : Z) (l : list Batch.t) : list Batch.t :=
  fst (partitionBatches now l).

Definition archivedBatches (now : Z) (l : list Batch.t) : list Batch.t :=
  snd (partitionBatches now l).

(** ** Aggregator ([summary] / [performance]) *)

Record Summary := mkSummary {
  totalGains : Z;
  totalDelivered : Z;
  totalReturned : Z;
  totalAbsent : Z
}.

Record Performance := mkPerformance {
  gains : Z;
  delivered : Z;
  returned : Z;
  name : string
}.

Definition performance_init (people : list DeliveryPerson.t) : gmap string Performance :=
  foldl (λ performance p,
           <[DeliveryPerson.id p :=
               {| gains := 0; delivered := 0; returned := 0;
                  name := DeliveryPerson.name p |}]> performance)
        ∅ people.

Definition batch_delivered (batch : Batch.t) : Z :=
  or0 (Batch.pgfnDelivered batch) + or0 (Batch.normalDelivered batch).

Definition batch_returned (batch : Batch.t) : Z :=
  or0 (Batch.pgfnReturned batch) + or0 (Batch.normalReturned batch).

Definition batch_absent (batch : Batch.t) : Z :=
  or0 (Batch.pgfnAbsent batch) + or0 (Batch.normalAbsent batch).

(** The guard of the loop body:
    [batch.status === 'finalized' && batch.totalValue]. *)
Definition counted (batch : Batch.t) : bool :=
  bool_decide (Batch.status batch = finalized) && truthy (Batch.totalValue batch).

Definition aggregate_visit (acc : Summary * gmap string Performance) (batch : Batch.t)
    : Summary * gmap string Performance :=
  let '(summary, performance) := acc in
  if counted batch then
    let value := default 0 (Batch.totalValue batch) in
    let delivered' := batch_delivered batch in
    let returned' := batch_returned batch in
    let summary' :=
      {| totalGains := totalGains summary + value;
         totalDelivered := totalDelivered summary + delivered';
         totalReturned := totalReturned summary + returned';
         totalAbsent := totalAbsent summary + batch_absent batch |} in
    match performance !! Batch.deliveryPersonId batch with
    | Some e =>
        (summary',
         <[Batch.deliveryPersonId batch :=
             {| gains := gains e + value;
                delivered := delivered e + delivered';
                returned := returned e + returned';
                name := name e |}]> performance)
    | None => (summary', performance)
    end
  else acc.

Definition aggregate (dashboard : list Batch.t) (people : list DeliveryPerson.t)
    : Summary * gmap string Performance :=
  foldl aggregate_visit
        ({| totalGains := 0; totalDelivered := 0; totalReturned := 0; totalAbsent := 0 |},
         performance_init people)
        dashboard.

Definition summary (dashboard : list Batch.t) (people : list DeliveryPerson.t) : Summary :=
  fst (aggregate dashboard people).

Definition performance (dashboard : list Batch.t) (people : list DeliveryPerson.t)
    : gmap string Performance :=
  snd (aggregate dashboard people).

(** ** The engine as a transition system

    One action per way the user interface reaches a store callback.  A
    modal works on the batch selected in the current list, the card of
    a pending batch opens the finalize modal, and [Date.now()] has
    advanced since the ids in the store were drawn. *)

Inductive Action :=
  | SubmitNewPerson (data : PersonForm) (now : Z)
  | SubmitEditPerson (person : DeliveryPerson.t) (data : PersonForm)
  | ConfirmDeletePerson (personId : string)
  | SubmitNewBatch (data : NewBatchForm) (now : Z)
  | SubmitFinalize (batch : Batch.t) (data : FinalizeForm)
  | SubmitEdit (batch : Batch.t) (data : Counts)
  | ConfirmDeleteBatch (batchId : string).

(** The state of a first start, with nothing in [localStorage]. *)
Definition initial : AppState :=
  {| batches := []; deliveryPeople := []; errors := ∅ |}.

Section Transitions.
Variable omit : OmitOnRefined.
Variable localeCompare : string → string → Z.

Definition run (a : Action) (st : AppState) : completion :=
  match a with
  | SubmitNewPerson data now => AddDeliveryPersonView_handleSubmit localeCompare data now st
  | SubmitEditPerson person data =>
      EditDeliveryPersonModal_handleSubmit localeCompare person data st
  | ConfirmDeletePerson personId => deleteDeliveryPerson personId st
  | SubmitNewBatch data now => NewBatchModal_handleSubmit data now st
  | SubmitFinalize batch data => FinalizeBatchModal_handleSubmit batch data st
  | SubmitEdit batch data => EditBatchModal_handleSubmit omit batch data st
  | ConfirmDeleteBatch batchId => deleteBatch batchId st
  end.

Definition enabled (a : Action) (st : AppState) : Prop :=
  match a with
  | SubmitNewPerson _ now => pretty now ∉ DeliveryPerson.id <$> deliveryPeople st
  | SubmitEditPerson person _ => person ∈ deliveryPeople st
  | ConfirmDeletePerson personId => personId ∈ DeliveryPerson.id <$> deliveryPeople st
  | SubmitNewBatch _ now => pretty now ∉ Batch.id <$> batches st
  | SubmitFinalize batch _ =>
      batch ∈ batches st ∧ DashboardView_onBatchClick batch = finalizeBatch
  | SubmitEdit batch _ => batch ∈ batches st
  | ConfirmDeleteBatch batchId => batchId ∈ Batch.id <$> batches st
  end.

Definition step (st st' : AppState) : Prop :=
  ∃ a, enabled a st ∧ run a st = Normal st'.

Definition reachable (st : AppState) : Prop := rtc step initial st.
End Transitions.

(** ** Properties of a stored batch *)

Definition stored_counts (b : Batch.t) : option Counts :=
  pd ← Batch.pgfnDelivered b;
  pr ← Batch.pgfnReturned b;
  pa ← Batch.pgfnAbsent b;
  nd ← Batch.normalDelivered b;
  nr ← Batch.normalReturned b;
  na ← Batch.normalAbsent b;
  Some (mkCounts pd pr pa nd nr na).

(** The conservation equations of a batch for six candidate counts. *)
Definition balanced (b : Batch.t) (c : Counts) : Prop :=
  c_pgfnDelivered c + c_pgfnReturned c + c_pgfnAbsent c = Batch.pgfnInitial b
  ∧ c_normalDelivered c + c_normalReturned c + c_normalAbsent c = Batch.normalInitial b.

Definition non_negative (c : Counts) : Prop :=
  0 ≤ c_pgfnDelivered c ∧ 0 ≤ c_pgfnReturned c ∧ 0 ≤ c_pgfnAbsent c
  ∧ 0 ≤ c_normalDelivered c ∧ 0 ≤ c_normalReturned c ∧ 0 ≤ c_normalAbsent c.

(** What reconciliation leaves in a finalized batch. *)
Definition reconciled (b : Batch.t) : Prop :=
  Batch.status b = finalized →
  ∃ c, stored_counts b = Some c ∧ balanced b c ∧ non_negative c
       ∧ Batch.totalValue b = Some (totalPaidItems c * DELIVERY_FEE)
       ∧ is_Some (Batch.returnDatetime b).

#[global] Instance balanced_dec b c : Decision (balanced b c).
Proof. unfold balanced. apply _. Defined.

#[global] Instance non_negative_dec c : Decision (non_negative c).
Proof. unfold non_negative. apply _. Defined.

(** The sum of a quantity over a collection of batches, and the
    finalized batches of a collection (those of one courier). *)
Definition Zsum (f : Batch.t → Z) (l : list Batch.t) : Z :=
  foldr (λ b acc, f b + acc) 0 l.

Definition finalizedBatches (l : list Batch.t) : list Batch.t :=
  filter (λ b, Batch.status b = finalized) l.

Definition finalizedBatchesOf (personId : string) (l : list Batch.t) : list Batch.t :=
  filter (λ b, Batch.deliveryPersonId b = personId) (finalizedBatches l).

(** Whether the partition files a batch under Archived at [now]. *)
Definition archived_at (now : Z) (b : Batch.t) : Prop :=
  Batch.status b = finalized
  ∧ ∃ ret, Batch.returnDatetime b = Some ret ∧ ARCHIVE_DELAY_DAYS * msPerDay < now - ret.

(** The order of a sorted batch list: latest departure first. *)
Definition later_first (a b : Batch.t) : Prop :=
  Batch.departureDatetime b ≤ Batch.departureDatetime a.

#[global] Instance archived_at_dec now b : Decision (archived_at now b).
Proof.
  unfold archived_at. destruct (Batch.returnDatetime b) as [ret |].
  - destruct (decide (Batch.status b = finalized
                      ∧ ARCHIVE_DELAY_DAYS * msPerDay < now - ret)) as [H | H].
    + left. split; [apply H |]. exists ret. split; [done | apply H].
    + right. intros (Hs & ret' & [= <-] & Hlt). by apply H.
  - right. by intros (_ & ret & ? & _).
Defined.

(** What every finalize and every accepted edit leave in a finalized
    batch, whether or not the counts add up. *)
Definition valued (b : Batch.t) : Prop :=
  Batch.status b = finalized →
  ∃ c, stored_counts b = Some c ∧ non_negative c
       ∧ Batch.totalValue b = Some (totalPaidItems c * DELIVERY_FEE)
       ∧ is_Some (Batch.returnDatetime b).

(** What holds of the store in every state reached while the edit
    handler throws. *)
Definition store_ok (st : AppState) : Prop :=
  NoDup (Batch.id <$> batches st) ∧ Forall reconciled (batches st).

(** ** The filters of the dashboard and of the archive *)

(** The value of the status select: ['all'], ['pending'] or ['finalized']. *)
Inductive StatusFilter := allStatuses | onlyStatus (s : Status).

Record DashboardFilters := mkDashboardFilters {
  df_status : StatusFilter;
  df_person : string;
  df_search : string
}.

(** [String.prototype.includes] *)
Definition includes (s searchString : string) : bool :=
  match String.index 0 searchString s with
  | Some _ => true
  | None => false
  end.

(** [deliveryPeople.find(p => p.id === i)] *)
Definition find_person (people : list DeliveryPerson.t) (i : string)
    : option DeliveryPerson.t :=
  snd <$> list_find (λ p, DeliveryPerson.id p = i) people.

(** [!person || batch.deliveryPersonId === person] *)
Definition personFilterMatch (person : string) (batch : Batch.t) : bool :=
  bool_decide (person = "") || bool_decide (Batch.deliveryPersonId batch = person).

Definition statusFilterMatch (status : StatusFilter) (batch : Batch.t) : bool :=
  match status with
  | allStatuses => true
  | onlyStatus s => bool_decide (Batch.status batch = s)
  end.

Section Filters.
(** [String.prototype.toLowerCase] *)
Variable toLowerCase : string → string.

Definition searchTermMatch (search : string) (people : list DeliveryPerson.t)
    (batch : Batch.t) : bool :=
  if decide (search = "") then true
  else includes (toLowerCase (Batch.id batch)) (toLowerCase search)
       || match find_person people (Batch.deliveryPersonId batch) with
          | Some p => includes (toLowerCase (DeliveryPerson.name p)) (toLowerCase search)
          | None => false
          end.

Definition filteredDashboardBatches (filters : DashboardFilters)
    (people : list DeliveryPerson.t) (dashboard : list Batch.t) : list Batch.t :=
  filter (λ batch, searchTermMatch (df_search filters) people batch
                   && statusFilterMatch (df_status filters) batch
                   && personFilterMatch (df_person filters) batch = true)
         dashboard.
End Filters.

Definition filteredArchivedBatches (person : string) (archived : list Batch.t)
    : list Batch.t :=
  filter (λ batch, personFilterMatch person batch = true) archived.

(** ** The status badge of a batch card ([BatchCard.tsx]) *)

Definition BatchCard_statusText (batch : Batch.t) (now : Z) : string :=
  if decide (Batch.status batch = finalized) then "FINALIZADO"
  else if Batch.estimatedReturnDate batch <? now then "ATRASADO"
  else "PENDENTE".

(** ** The figures of the profile view *)

Record ProfileStats := mkProfileStats {
  ps_delivered : Z;
  ps_returned : Z;
  ps_pending : nat
}.

Definition DeliveryPersonProfileView_stats (person : DeliveryPerson.t)
    (batches : list Batch.t) : ProfileStats :=
  let finalized :=
    filter (λ b, Batch.deliveryPersonId b = DeliveryPerson.id person
                 ∧ Batch.status b = finalized) batches in
  {| ps_delivered :=
       foldl (λ s b, s + or0 (Batch.pgfnDelivered b) + or0 (Batch.normalDelivered b))
             0 finalized;
     ps_returned :=
       foldl (λ s b, s + or0 (Batch.pgfnReturned b) + or0 (Batch.normalReturned b))
             0 finalized;
     ps_pending :=
       length (filter (λ b, Batch.deliveryPersonId b = DeliveryPerson.id person
                            ∧ Batch.status b = pending) batches) |}.

(** ** Modal flags and selection

    [modalState], [selectedBatch] and [selectedPerson] of the [App]
    component, with [openModal], [closeModal] and the click handlers
    that use them.  The state setters called by one handler take effect
    together. *)

#[global] Instance ModalName_eq_dec : EqDecision ModalName.
Proof. solve_decision. Defined.

Record ModalState := mkModalState {
  ms_newBatch : bool;
  ms_finalizeBatch : bool;
  ms_batchDetails : bool;
  ms_editBatch : bool;
  ms_editPerson : bool;
  ms_confirm : bool
}.

Record UIState := mkUI {
  modalState : ModalState;
  selectedBatch : option Batch.t;
  selectedPerson : option DeliveryPerson.t
}.

Definition initialUI : UIState :=
  {| modalState := mkModalState false false false false false false;
     selectedBatch := None;
     selectedPerson := None |}.

Definition isOpen (modalName : ModalName) (m : ModalState) : bool :=
  match modalName with
  | newBatch => ms_newBatch m
  | finalizeBatch => ms_finalizeBatch m
  | batchDetails => ms_batchDetails m
  | editBatch => ms_editBatch m
  | editPerson => ms_editPerson m
  | confirm => ms_confirm m
  end.

(** [{ ...prev, [modalName]: v }] *)
Definition setFlag (modalName : ModalName) (v : bool) (m : ModalState) : ModalState :=
  {| ms_newBatch := if decide (modalName = newBatch) then v else ms_newBatch m;
     ms_finalizeBatch :=
       if decide (modalName = finalizeBatch) then v else ms_finalizeBatch m;
     ms_batchDetails :=
       if decide (modalName = batchDetails) then v else ms_batchDetails m;
     ms_editBatch := if decide (modalName = editBatch) then v else ms_editBatch m;
     ms_editPerson := if decide (modalName = editPerson) then v else ms_editPerson m;
     ms_confirm := if decide (modalName = confirm) then v else ms_confirm m |}.

Definition openModal (modalName : ModalName) (ui : UIState) : UIState :=
  {| modalState := setFlag modalName true (modalState ui);
     selectedBatch := selectedBatch ui;
     selectedPerson := selectedPerson ui |}.

(** [capturedId] is [selectedPerson?.id] as the callback closed over it. *)
Definition closeModal (capturedId : option string) (modalName : ModalName)
    (ui : UIState) : UIState :=
  {| modalState := setFlag modalName false (modalState ui);
     selectedBatch :=
       if decide (modalName ∈ [finalizeBatch; batchDetails; editBatch])
       then None else selectedBatch ui;
     selectedPerson :=
       if decide (modalName = editPerson)
       then (if decide (DeliveryPerson.id <$> selectedPerson ui = capturedId)
             then None else selectedPerson ui)
       else selectedPerson ui |}.

(** [b => { setSelectedBatch(b); openModal(...) }] of the two list views,
    and the [onEdit] the details modal is given. *)
Definition Dashboard_onBatchClick (b : Batch.t) (ui : UIState) : UIState :=
  openModal (DashboardView_onBatchClick b)
            {| modalState := modalState ui;
               selectedBatch := Some b;
               selectedPerson := selectedPerson ui |}.

Definition Archive_onBatchClick (b : Batch.t) (ui : UIState) : UIState :=
  openModal batchDetails
            {| modalState := modalState ui;
               selectedBatch := Some b;
               selectedPerson := selectedPerson ui |}.

Definition BatchDetailsModal_onEdit (capturedId : option string) (ui : UIState)
    : UIState :=
  openModal editBatch (closeModal capturedId batchDetails ui).

(** The batch a modal is rendered for: the batch modals are mounted only
    while a batch is selected, and [Modal] renders nothing unless
    [isOpen]. *)
Definition renderedFor (modalName : ModalName) (ui : UIState) : option Batch.t :=
  if isOpen modalName (modalState ui) then selectedBatch ui else None.

(** The sum of a figure of the [performance] entries over the roster. *)
Definition roster_sum (f : Performance → Z) (perf : gmap string Performance)
    (people : list DeliveryPerson.t) : Z :=
  foldr (λ p acc, from_option f 0 (perf !! DeliveryPerson.id p) + acc) 0 people.

(** What the new-batch form leaves in every batch it creates. *)
Definition well_created (b : Batch.t) : Prop :=
  (∃ now : Z, Batch.id b = pretty now)
  ∧ Batch.deliveryPersonId b ≠ ""
  ∧ 0 ≤ Batch.pgfnInitial b ∧ 0 ≤ Batch.normalInitial b
  ∧ 0 < Batch.pgfnInitial b + Batch.normalInitial b.

(** ** Orders *)

(** What a comparator must satisfy for [Array.prototype.sort] to be
    determined. *)
Definition consistent {A : Type} (compareFn : A → A → Z) : Prop :=
  (∀ x y, 0 < compareFn x y → compareFn y x ≤ 0)
  ∧ (∀ x y z, compareFn x y ≤ 0 → compareFn y z ≤ 0 → compareFn x z ≤ 0).

Definition ascending {A : Type} (compareFn : A → A → Z) (x y : A) : Prop :=
  compareFn x y ≤ 0.

(** A comparator for the examples: shorter names first. *)
Definition sample_by_length (a b : string) : Z :=
  Z.of_nat (String.length a) - Z.of_nat (String.length b).

(** ** Sample data

    The worked example of the reconciliation rules: courier [C1] takes
    out ten PGFN documents, and comes back with seven delivered, two
    returned and one addressee absent. *)

Definition sample_compare : string → string → Z := λ _ _, 0.

Definition sample_new : NewBatchForm :=
  mkNewBatchForm "C1" 10 0 (Some 1000) (Some 2000) "".

Definition sample_pending : Batch.t :=
  Batch.mk "1" "C1" 10 0 1000 2000 pending ""
           None None None None None None None None.

Definition sample_counts : Counts := mkCounts 7 2 1 0 0 0.

Definition sample_form : FinalizeForm := mkFinalizeForm (Some 5000) sample_counts.

Definition sample_finalized : Batch.t :=
  Batch.mk "1" "C1" 10 0 1000 2000 finalized ""
           (Some 7) (Some 2) (Some 1) (Some 0) (Some 0) (Some 0) (Some 27) (Some 5000).

Definition sample_person : DeliveryPerson.t :=
  DeliveryPerson.mk "C1" "Ana" None None None None None None.

Definition sample_open : AppState :=
  {| batches := [sample_pending]; deliveryPeople := []; errors := ∅ |}.

Definition sample_closed : AppState :=
  {| batches := [sample_finalized]; deliveryPeople := []; errors := ∅ |}.

Definition sample_absent_form : FinalizeForm :=
  mkFinalizeForm (Some 5000) (mkCounts 0 0 10 0 0 0).

Definition sample_all_absent : Batch.t :=
  Batch.mk "1" "C1" 10 0 1000 2000 finalized ""
           (Some 0) (Some 0) (Some 10) (Some 0) (Some 0) (Some 0) (Some 0) (Some 5000).

Definition sample_idle : DeliveryPerson.t :=
  DeliveryPerson.mk "C2" "Bia" None None None None None None.

Definition sample_stray : Batch.t :=
  Batch.mk "2" "C1" 3 0 1500 2500 pending ""
           None None None None None None None None.

Definition sample_again_form : FinalizeForm :=
  mkFinalizeForm (Some 9000) (mkCounts 1 1 8 0 0 0).

Definition sample_refinalized : Batch.t :=
  Batch.mk "1" "C1" 10 0 1000 2000 finalized ""
           (Some 1) (Some 1) (Some 8) (Some 0) (Some 0) (Some 0) (Some 6) (Some 9000).

Definition sample_carla : PersonForm := mkPersonForm "Carla" "" "" "" "" "" "".

Definition sample_ana : PersonForm := mkPersonForm "Ana" "" "" "" "" "" "".

Definition sample_roster : AppState :=
  {| batches := [];
     deliveryPeople := [person_of_form "2" sample_ana; person_of_form "1" sample_carla];
     errors := ∅ |}.

Definition sample_unbalanced : Counts := mkCounts 100 0 0 0 0 0.

Definition sample_overcounted : Batch.t :=
  Batch.mk "1" "C1" 10 0 1000 2000 finalized ""
           (Some 100) (Some 0) (Some 0) (Some 0) (Some 0) (Some 0) (Some 300)
           (Some 5000).



(** * Properties *)

(** ** The schemas *)

Lemma min0_nil key n : min0 key n = [] ↔ 0 ≤ n.
Proof. unfold min0. destruct (Z.ltb_spec n 0); split; (done || lia). Qed.

Lemma app_nil_iff {A} (l k : list A) : l ++ k = [] ↔ l = [] ∧ k = [].
Proof. split; [apply app_eq_nil | by intros [-> ->]]. Qed.

Lemma counts_object_nil c : counts_object c = [] ↔ non_negative c.
Proof.
  unfold counts_object, non_negative.
  rewrite !app_nil_iff, !min0_nil. tauto.
Qed.

Lemma conservation_issues_nil b c : conservation_issues b c = [] ↔ balanced b c.
Proof.
  unfold conservation_issues, balanced.
  repeat case_decide; simpl; split; try done; intros [? ?]; try done; lia.
Qed.

Lemma conservation_issues_unbalanced b c :
  ¬ balanced b c →
  "pgfn" ∈ conservation_issues b c ∨ "normal" ∈ conservation_issues b c.
Proof.
  unfold conservation_issues, balanced. intros H.
  destruct (decide (c_pgfnDelivered c + c_pgfnReturned c + c_pgfnAbsent c
                    ≠ Batch.pgfnInitial b)) as [|Hp]; [left; apply elem_of_app; left; by left |].
  destruct (decide (c_normalDelivered c + c_normalReturned c + c_normalAbsent c
                    ≠ Batch.normalInitial b)) as [|Hn]; [right; apply elem_of_app; right; by left |].
  exfalso. apply H. split; lia.
Qed.

Lemma createFinalizeBatchSchema_Success b data r :
  createFinalizeBatchSchema b data = Success r ↔
  ff_returnDatetime data = Some (fd_returnDatetime r)
  ∧ fd_counts r = ff_counts data
  ∧ non_negative (ff_counts data) ∧ balanced b (ff_counts data).
Proof.
  unfold createFinalizeBatchSchema.
  rewrite <- counts_object_nil, <- conservation_issues_nil.
  destruct (ff_returnDatetime data) as [ret|]; simpl.
  - destruct (counts_object (ff_counts data)); simpl.
    + destruct (conservation_issues b (ff_counts data)); simpl.
      * destruct r as [ret' c']; simpl. split.
        -- by intros [= -> ->].
        -- by intros ([= ->] & -> & _).
      * split; [done | by intros (_ & _ & _ & ?)].
    + split; [done | by intros (_ & _ & ? & _)].
  - split; [done | by intros (? & _)].
Qed.

Lemma createFinalizeBatchSchema_unbalanced b data :
  ¬ balanced b (ff_counts data) →
  ∃ issues, createFinalizeBatchSchema b data = Failure issues
            ∧ ("pgfn" ∈ issues ∨ "normal" ∈ issues).
Proof.
  intros H. apply conservation_issues_unbalanced in H.
  unfold createFinalizeBatchSchema.
  set (pre := min1_date "returnDatetime" (ff_returnDatetime data)
              ++ counts_object (ff_counts data)).
  rewrite (app_assoc _ _ _ : _ ++ _ ++ _ = pre ++ _).
  set (ci := conservation_issues b (ff_counts data)) in *.
  assert (Hin : "pgfn" ∈ pre ++ ci ∨ "normal" ∈ pre ++ ci)
    by (destruct H; [left | right]; apply elem_of_app; by right).
  destruct (pre ++ ci) as [|i l] eqn:E.
  - destruct Hin as [Hin | Hin]; inversion Hin.
  - exists (i :: l). split; [by destruct (ff_returnDatetime data) | done].
Qed.

Lemma countsSchema_Success data c :
  countsSchema data = Success c ↔ c = data ∧ non_negative data.
Proof.
  unfold countsSchema. rewrite <- counts_object_nil.
  destruct (counts_object data); simpl.
  - split; [by intros [= ->] | by intros (-> & _)].
  - split; [done | by intros (_ & ?)].
Qed.

Lemma EditBatchModal_handleSubmit_throws e batch data st :
  EditBatchModal_handleSubmit (OmitThrows e) batch data st = Throw e.
Proof. done. Qed.

Lemma EditBatchModal_handleSubmit_accepts batch data st :
  non_negative data →
  EditBatchModal_handleSubmit OmitDropsRefinement batch data st
  = updateBatch (edited_batch batch data) st.
Proof.
  intros Hn. unfold EditBatchModal_handleSubmit. simpl.
  assert (E : countsSchema data = Success data) by by apply countsSchema_Success.
  by rewrite E.
Qed.

(** The ways the edit handler returns normally. *)
Lemma EditBatchModal_handleSubmit_Normal omit batch data st st' :
  EditBatchModal_handleSubmit omit batch data st = Normal st' →
  omit = OmitDropsRefinement
  ∧ ((non_negative data ∧ updateBatch (edited_batch batch data) st = Normal st')
     ∨ (∃ issues, st' = setErrors (getZodFieldErrors issues) st)).
Proof.
  unfold EditBatchModal_handleSubmit. destruct omit; [done |]. simpl.
  destruct (countsSchema data) as [c | issues] eqn:E.
  - apply countsSchema_Success in E as (-> & Hn). intros H. split; [done |]. by left.
  - intros [= <-]. split; [done |]. right. by exists issues.
Qed.

Lemma newBatchSchema_Success data d :
  newBatchSchema data = Success d →
  nb_deliveryPersonId data ≠ ""
  ∧ 0 ≤ nb_pgfnInitial data ∧ 0 ≤ nb_normalInitial data
  ∧ (0 < nb_pgfnInitial data ∨ 0 < nb_normalInitial data)
  ∧ nd_pgfnInitial d = nb_pgfnInitial data
  ∧ nd_normalInitial d = nb_normalInitial data.
Proof.
  unfold newBatchSchema.
  destruct (newBatch_object data ++ newBatch_refine data) eqn:E;
    [| by destruct (nb_departureDatetime data), (nb_estimatedReturnDate data)].
  apply app_nil_iff in E as [Ho Hr].
  unfold newBatch_object in Ho. rewrite !app_nil_iff, !min0_nil in Ho.
  destruct Ho as (Hid & ? & ? & _).
  unfold min1 in Hid. case_decide; [done |].
  unfold newBatch_refine in Hr.
  destruct (Z.ltb_spec 0 (nb_pgfnInitial data)), (Z.ltb_spec 0 (nb_normalInitial data));
    simpl in Hr; try done;
    destruct (nb_departureDatetime data), (nb_estimatedReturnDate data); try done;
    intros [= <-]; simpl; repeat split; auto.
Qed.

(** ** The store callbacks *)

Section StoreFacts.
Implicit Types (l : list Batch.t) (u b : Batch.t).

Lemma replace_ids i u l :
  Batch.id u = i →
  Batch.id <$> ((λ b, if decide (Batch.id b = i) then u else b) <$> l)
  = Batch.id <$> l.
Proof.
  intros <-. rewrite <- list_fmap_compose. apply list_fmap_ext.
  intros i b _. simpl. by case_decide.
Qed.

Lemma replace_absent i u l :
  i ∉ Batch.id <$> l →
  (λ b, if decide (Batch.id b = i) then u else b) <$> l = l.
Proof.
  intros Hid. rewrite <- (list_fmap_id l) at 2. apply list_fmap_ext.
  intros j b Hb. simpl. case_decide as E; [| done].
  exfalso. apply Hid. rewrite <- E.
  apply list_elem_of_fmap_2. by eapply list_elem_of_lookup_2.
Qed.

Lemma replace_elem_of i u l b' :
  b' ∈ (λ b, if decide (Batch.id b = i) then u else b) <$> l →
  (b' = u ∧ i ∈ Batch.id <$> l) ∨ (b' ∈ l ∧ Batch.id b' ≠ i).
Proof.
  intros (b & -> & Hb)%list_elem_of_fmap. case_decide as E.
  - left. split; [done |]. rewrite <- E. by apply list_elem_of_fmap_2.
  - by right.
Qed.

Lemma filter_absent (i : string) l :
  i ∉ Batch.id <$> l → filter (λ b, Batch.id b ≠ i) l = l.
Proof.
  induction l as [|b l IH]; [done |].
  rewrite fmap_cons, not_elem_of_cons. intros [Hne Hl].
  rewrite filter_cons_True by done. by rewrite IH.
Qed.

Lemma NoDup_ids_filter (P : Batch.t → Prop) `{∀ b, Decision (P b)} l :
  NoDup (Batch.id <$> l) → NoDup (Batch.id <$> filter P l).
Proof.
  induction l as [|b l IH]; [done |].
  rewrite fmap_cons, NoDup_cons. intros [Hb Hl].
  rewrite filter_cons. case_decide; [| by apply IH].
  rewrite fmap_cons, NoDup_cons. split; [| by apply IH].
  intros (b' & E & Hb')%list_elem_of_fmap.
  apply list_elem_of_filter in Hb' as [_ Hb'].
  apply Hb. rewrite E. by apply list_elem_of_fmap_2.
Qed.

Lemma NoDup_ids_eq l b b' :
  NoDup (Batch.id <$> l) → b ∈ l → b' ∈ l → Batch.id b = Batch.id b' → b = b'.
Proof.
  induction l as [|x l IH]; [by intros _ ?%elem_of_nil |].
  rewrite fmap_cons, NoDup_cons. intros [Hx Hl].
  rewrite !elem_of_cons. intros [-> | Hb] [-> | Hb'] E; try done.
  - exfalso. apply Hx. rewrite E. by apply list_elem_of_fmap_2.
  - exfalso. apply Hx. rewrite <- E. by apply list_elem_of_fmap_2.
  - by apply IH.
Qed.
End StoreFacts.

(** ** Reconciliation leaves a reconciled batch *)

Lemma stored_counts_finalized batch ret c :
  stored_counts (finalized_batch batch ret c) = Some c.
Proof. by destruct c. Qed.

Lemma stored_counts_edited batch c : stored_counts (edited_batch batch c) = Some c.
Proof. by destruct c. Qed.

Lemma finalized_batch_reconciled batch ret c :
  non_negative c → balanced batch c → reconciled (finalized_batch batch ret c).
Proof.
  intros Hn Hb _. exists c. rewrite stored_counts_finalized.
  repeat split; try done; try apply Hn; try apply Hb.
Qed.

Lemma edited_batch_reconciled batch c :
  reconciled batch → non_negative c → balanced batch c →
  reconciled (edited_batch batch c).
Proof.
  intros Hr Hn Hb Hs. simpl in Hs. destruct (Hr Hs) as (_ & _ & _ & _ & _ & Hret).
  exists c. rewrite stored_counts_edited.
  repeat split; try done; try apply Hn; apply Hb.
Qed.

Lemma reconciled_valued b : reconciled b → valued b.
Proof.
  intros Hr Hs. destruct (Hr Hs) as (c & Hc & _ & Hn & Htv & Hret). by exists c.
Qed.

Lemma finalized_batch_valued batch ret c :
  non_negative c → valued (finalized_batch batch ret c).
Proof.
  intros Hn _. exists c. rewrite stored_counts_finalized.
  repeat split; try done; apply Hn.
Qed.

Lemma edited_batch_valued batch c :
  valued batch → non_negative c → valued (edited_batch batch c).
Proof.
  intros Hv Hn Hs. simpl in Hs. destruct (Hv Hs) as (_ & _ & _ & _ & Hret).
  exists c. rewrite stored_counts_edited.
  repeat split; try done; apply Hn.
Qed.

(** ** Invariants of the reachable states *)

Lemma Forall_replace (P : Batch.t → Prop) i u l :
  P u → Forall P l →
  Forall P ((λ b, if decide (Batch.id b = i) then u else b) <$> l).
Proof.
  intros Hu Hl. apply Forall_fmap. eapply Forall_impl; [exact Hl |].
  intros b Hb. simpl. by case_decide.
Qed.

Lemma Forall_filter_keep {A} (P Q : A → Prop) `{∀ x, Decision (Q x)} (l : list A) :
  Forall P l → Forall P (filter Q l).
Proof.
  rewrite !Forall_forall. intros Hl x [_ Hx]%list_elem_of_filter. by apply Hl.
Qed.

Lemma handleSubmit_person_batches omit localeCompare a st st' :
  match a with
  | SubmitNewPerson _ _ | SubmitEditPerson _ _ => True
  | _ => False
  end →
  run omit localeCompare a st = Normal st' → batches st' = batches st.
Proof.
  destruct a as [data now | person data | | | | |]; try done; intros _; simpl.
  - unfold AddDeliveryPersonView_handleSubmit.
    destruct (deliveryPersonSchema data); by intros [= <-].
  - unfold EditDeliveryPersonModal_handleSubmit.
    destruct (deliveryPersonSchema data); by intros [= <-].
Qed.

Lemma batches_setBatches f st : batches (setBatches f st) = f (batches st).
Proof. done. Qed.

(** While the edit handler throws, every stored batch stays reconciled. *)
Lemma step_store_ok e localeCompare st st' :
  store_ok st → step (OmitThrows e) localeCompare st st' → store_ok st'.
Proof.
  intros [Hnd Hrec] (a & Hen & Hrun). unfold store_ok.
  destruct a as [data now | person data | personId | data now | batch data
                | batch data | batchId].
  - apply handleSubmit_person_batches in Hrun; [| done]. by rewrite Hrun.
  - apply handleSubmit_person_batches in Hrun; [| done]. by rewrite Hrun.
  - injection Hrun as <-. rewrite batches_setBatches. cbv beta. split.
    + by apply NoDup_ids_filter.
    + by apply Forall_filter_keep.
  - unfold run, NewBatchModal_handleSubmit, addBatch in Hrun. simpl in Hen.
    destruct (newBatchSchema data) as [d |]; injection Hrun as <-; [| done].
    rewrite batches_setBatches. cbv beta. split.
    + rewrite fmap_cons. by apply NoDup_cons.
    + apply Forall_cons. split; [| done]. by intros Hs.
  - unfold run, FinalizeBatchModal_handleSubmit, updateBatch in Hrun.
    destruct (createFinalizeBatchSchema batch data) as [r |] eqn:E;
      injection Hrun as <-; [| done].
    apply createFinalizeBatchSchema_Success in E as (_ & -> & Hn & Hb).
    rewrite batches_setBatches. cbv beta. split.
    + by rewrite replace_ids.
    + apply Forall_replace; [| done]. by apply finalized_batch_reconciled.
  - done.
  - injection Hrun as <-. rewrite batches_setBatches. cbv beta. split.
    + by apply NoDup_ids_filter.
    + by apply Forall_filter_keep.
Qed.

Lemma reachable_store_ok e localeCompare st :
  reachable (OmitThrows e) localeCompare st → store_ok st.
Proof.
  unfold reachable. revert st. apply rtc_ind_r.
  - split; simpl; constructor.
  - intros mid st' _ Hstep IH. by eapply step_store_ok.
Qed.

(** Whatever [.omit] does, the ids stay distinct and every finalized
    batch keeps non-negative counts, the value computed from them and a
    return instant. *)
Lemma step_ids_valued omit localeCompare st st' :
  NoDup (Batch.id <$> batches st) ∧ Forall valued (batches st) →
  step omit localeCompare st st' →
  NoDup (Batch.id <$> batches st') ∧ Forall valued (batches st').
Proof.
  intros [Hnd Hval] (a & Hen & Hrun).
  destruct a as [data now | person data | personId | data now | batch data
                | batch data | batchId].
  - apply handleSubmit_person_batches in Hrun; [| done]. by rewrite Hrun.
  - apply handleSubmit_person_batches in Hrun; [| done]. by rewrite Hrun.
  - injection Hrun as <-. rewrite batches_setBatches. cbv beta. split.
    + by apply NoDup_ids_filter.
    + by apply Forall_filter_keep.
  - unfold run, NewBatchModal_handleSubmit, addBatch in Hrun. simpl in Hen.
    destruct (newBatchSchema data) as [d |]; injection Hrun as <-; [| done].
    rewrite batches_setBatches. cbv beta. split.
    + rewrite fmap_cons. by apply NoDup_cons.
    + apply Forall_cons. split; [| done]. by intros Hs.
  - unfold run, FinalizeBatchModal_handleSubmit, updateBatch in Hrun.
    destruct (createFinalizeBatchSchema batch data) as [r |] eqn:E;
      injection Hrun as <-; [| done].
    apply createFinalizeBatchSchema_Success in E as (_ & -> & Hn & Hb).
    rewrite batches_setBatches. cbv beta. split.
    + by rewrite replace_ids.
    + apply Forall_replace; [| done]. by apply finalized_batch_valued.
  - simpl in Hrun, Hen.
    apply EditBatchModal_handleSubmit_Normal in Hrun as (_ & [[Hn Hrun] | [issues ->]]);
      [| done].
    unfold updateBatch in Hrun. injection Hrun as <-.
    rewrite batches_setBatches. cbv beta. split.
    + by rewrite replace_ids.
    + apply Forall_replace; [| done]. apply edited_batch_valued; [| done].
      by eapply (proj1 (Forall_forall _ _) Hval).
  - injection Hrun as <-. rewrite batches_setBatches. cbv beta. split.
    + by apply NoDup_ids_filter.
    + by apply Forall_filter_keep.
Qed.

Lemma reachable_ids_valued omit localeCompare st :
  reachable omit localeCompare st →
  NoDup (Batch.id <$> batches st) ∧ Forall valued (batches st).
Proof.
  unfold reachable. revert st. apply rtc_ind_r.
  - split; simpl; constructor.
  - intros mid st' _ Hstep IH. by eapply step_ids_valued.
Qed.

Lemma sample_open_reachable omit : reachable omit sample_compare sample_open.
Proof.
  eapply rtc_r; [apply rtc_refl |].
  exists (SubmitNewBatch sample_new 1). split; [| done].
  simpl. apply not_elem_of_nil.
Qed.

Lemma sample_closed_reachable omit : reachable omit sample_compare sample_closed.
Proof.
  eapply rtc_r; [apply sample_open_reachable |].
  exists (SubmitFinalize sample_pending sample_form). split; [| done].
  split; [apply list_elem_of_here | done].
Qed.

(** ** Conservation *)

(** A finalize submit whose counts break either equation only records
    a field error ([pgfn] or [normal]) and leaves the store as it was. *)
Lemma finalize_rejects_unbalanced batch data st :
  ¬ balanced batch (ff_counts data) →
  ∃ issues st',
    FinalizeBatchModal_handleSubmit batch data st = Normal st'
    ∧ st' = setErrors (getZodFieldErrors issues) st
    ∧ ("pgfn" ∈ issues ∨ "normal" ∈ issues)
    ∧ batches st' = batches st ∧ deliveryPeople st' = deliveryPeople st.
Proof.
  intros Hun.
  destruct (createFinalizeBatchSchema_unbalanced batch data Hun) as (issues & E & Hin).
  exists issues, (setErrors (getZodFieldErrors issues) st).
  unfold FinalizeBatchModal_handleSubmit. by rewrite E.
Qed.

(** While the edit handler throws, conservation holds in every
    reachable state. *)
Lemma reachable_conservation e localeCompare st b :
  reachable (OmitThrows e) localeCompare st → b ∈ batches st →
  Batch.status b = finalized →
  ∃ c, stored_counts b = Some c ∧ balanced b c.
Proof.
  intros Hreach Hb Hs. apply reachable_store_ok in Hreach as [_ Hrec].
  rewrite Forall_forall in Hrec.
  destruct (Hrec b Hb Hs) as (c & Hc & Hbal & _). by exists c.
Qed.

(** C1.  The edit path does not enforce conservation.  On the
    reconciled sample batch (ten PGFN documents, stored 7/2/1) the edit
    form 100/0/0 breaks the PGFN equation.  Where [.omit] drops the
    refinement the handler accepts it: the stored batch stays finalized
    with counts that add up to 100 and a [totalValue] of 300, in a
    reachable state.  Where [.omit] throws, the handler throws on this
    form, and on the balanced form 7/2/1 as well, so no edit is ever
    checked against the equations. *)
Theorem edit_escapes_conservation :
  sample_finalized ∈ batches sample_closed
  ∧ reconciled sample_finalized
  ∧ ¬ balanced sample_finalized sample_unbalanced
  ∧ EditBatchModal_handleSubmit OmitDropsRefinement sample_finalized sample_unbalanced
      sample_closed
    = Normal {| batches := [sample_overcounted]; deliveryPeople := []; errors := ∅ |}
  ∧ reachable OmitDropsRefinement sample_compare
      {| batches := [sample_overcounted]; deliveryPeople := []; errors := ∅ |}
  ∧ Batch.status sample_overcounted = finalized
  ∧ stored_counts sample_overcounted = Some sample_unbalanced
  ∧ ¬ balanced sample_overcounted sample_unbalanced
  ∧ Batch.totalValue sample_overcounted = Some 300
  ∧ (∀ e, EditBatchModal_handleSubmit (OmitThrows e) sample_finalized sample_unbalanced
            sample_closed
          = Throw e)
  ∧ (∀ e, EditBatchModal_handleSubmit (OmitThrows e) sample_finalized sample_counts
            sample_closed
          = Throw e).
Proof.
  split; [apply list_elem_of_here |].
  split.
  { intros _. exists sample_counts. split; [done |].
    split; [by split |]. split; [| by split; [| eexists]].
    unfold non_negative. simpl. lia. }
  split; [by intros [? _] |]. split; [reflexivity |].
  split.
  { eapply rtc_r; [apply sample_closed_reachable |].
    exists (SubmitEdit sample_finalized sample_unbalanced). split; [| reflexivity].
    apply list_elem_of_here. }
  split; [reflexivity |]. split; [reflexivity |].
  split; [by intros [? _] |]. by repeat split.
Qed.

(** ** Payable value *)

Lemma replace_lookup_self i u (l : list Batch.t) k b :
  l !! k = Some b → Batch.id b = i →
  ((λ b, if decide (Batch.id b = i) then u else b) <$> l) !! k = Some u.
Proof.
  intros Hk Hi. rewrite list_lookup_fmap, Hk. simpl. by rewrite decide_True.
Qed.

Lemma replace_lookup_other i u (l : list Batch.t) k b :
  l !! k = Some b → Batch.id b ≠ i →
  ((λ b, if decide (Batch.id b = i) then u else b) <$> l) !! k = Some b.
Proof.
  intros Hk Hi. rewrite list_lookup_fmap, Hk. simpl. by rewrite decide_False.
Qed.

(** C2.  [DELIVERY_FEE] is 3.  After a successful finalize submit, and
    after a successful edit submit on a finalized batch (the edit schema
    was built and parsed the form, whatever [.omit] does), the batch
    stored in the place of the submitted one carries the submitted counts
    and a [totalValue] of (pgfnDelivered + pgfnReturned + normalDelivered
    + normalReturned) * DELIVERY_FEE; the absent counts do not occur in
    it. *)
Theorem totalValue_of_paid_items :
  DELIVERY_FEE = 3
  ∧ (∀ st k batch data r,
        batches st !! k = Some batch →
        createFinalizeBatchSchema batch data = Success r →
        ∃ st' b',
          FinalizeBatchModal_handleSubmit batch data st = Normal st'
          ∧ batches st' !! k = Some b'
          ∧ stored_counts b' = Some (ff_counts data)
          ∧ Batch.totalValue b'
            = Some ((c_pgfnDelivered (ff_counts data) + c_pgfnReturned (ff_counts data)
                     + c_normalDelivered (ff_counts data)
                     + c_normalReturned (ff_counts data)) * DELIVERY_FEE))
  ∧ (∀ omit st k batch data schema c,
        batches st !! k = Some batch →
        Batch.status batch = finalized →
        createEditBatchSchema omit batch = inr schema →
        schema data = Success c →
        ∃ st' b',
          EditBatchModal_handleSubmit omit batch data st = Normal st'
          ∧ batches st' !! k = Some b'
          ∧ Batch.status b' = finalized
          ∧ stored_counts b' = Some data
          ∧ Batch.totalValue b'
            = Some ((c_pgfnDelivered data + c_pgfnReturned data
                     + c_normalDelivered data + c_normalReturned data) * DELIVERY_FEE)).
Proof.
  split; [done | split].
  - intros st k batch data r Hk E.
    unfold FinalizeBatchModal_handleSubmit, updateBatch. rewrite E.
    apply createFinalizeBatchSchema_Success in E as (_ & -> & _).
    eexists _, _. split; [done |]. rewrite batches_setBatches. split.
    + by apply replace_lookup_self with batch.
    + split; [apply stored_counts_finalized | done].
  - intros omit st k batch data schema c Hk Hs Hschema E.
    unfold EditBatchModal_handleSubmit, updateBatch. rewrite Hschema, E.
    destruct omit; [done |]. injection Hschema as <-.
    apply countsSchema_Success in E as (-> & _).
    eexists _, _. split; [done |]. rewrite batches_setBatches. split.
    + by apply replace_lookup_self with batch.
    + split; [done | split; [apply stored_counts_edited | done]].
Qed.

Lemma totalValue_of_paid_items_witness :
  (∃ st' b',
      FinalizeBatchModal_handleSubmit sample_pending sample_form sample_open = Normal st'
      ∧ batches st' !! 0%nat = Some b'
      ∧ stored_counts b' = Some sample_counts
      ∧ Batch.totalValue b' = Some ((7 + 2 + 0 + 0) * DELIVERY_FEE))
  ∧ (∃ st' b',
        EditBatchModal_handleSubmit OmitDropsRefinement sample_finalized
          (mkCounts 6 2 5 0 0 0) sample_closed
        = Normal st'
        ∧ batches st' !! 0%nat = Some b'
        ∧ Batch.status b' = finalized
        ∧ stored_counts b' = Some (mkCounts 6 2 5 0 0 0)
        ∧ Batch.totalValue b' = Some ((6 + 2 + 0 + 0) * DELIVERY_FEE)).
Proof.
  destruct totalValue_of_paid_items as (_ & Hfin & Hedit). split.
  - apply (Hfin sample_open 0%nat sample_pending sample_form
             (mkFinalizeData 5000 sample_counts)); reflexivity.
  - apply (Hedit OmitDropsRefinement sample_closed 0%nat sample_finalized
             (mkCounts 6 2 5 0 0 0) countsSchema (mkCounts 6 2 5 0 0 0)); reflexivity.
Defined.

(** ** Creation *)

Lemma newBatchSchema_Failure data i issues :
  newBatch_object data ++ newBatch_refine data = i :: issues →
  newBatchSchema data = Failure (i :: issues).
Proof.
  unfold newBatchSchema. intros ->.
  by destruct (nb_departureDatetime data), (nb_estimatedReturnDate data).
Qed.

(** C3.  A submit of the new-batch form changes the batch list only if
    both initial counts are non-negative and one of them is positive;
    with both counts zero the submit records an error under
    [pgfnInitial] and the store keeps its batches. *)
Theorem creation_needs_a_document :
  (∀ data now st st',
      NewBatchModal_handleSubmit data now st = Normal st' →
      batches st' ≠ batches st →
      0 ≤ nb_pgfnInitial data ∧ 0 ≤ nb_normalInitial data
      ∧ (0 < nb_pgfnInitial data ∨ 0 < nb_normalInitial data))
  ∧ (∀ data now st,
        nb_pgfnInitial data = 0 → nb_normalInitial data = 0 →
        ∃ issues st',
          NewBatchModal_handleSubmit data now st = Normal st'
          ∧ st' = setErrors (getZodFieldErrors issues) st
          ∧ "pgfnInitial" ∈ issues
          ∧ batches st' = batches st ∧ deliveryPeople st' = deliveryPeople st).
Proof.
  split.
  - intros data now st st'. unfold NewBatchModal_handleSubmit.
    destruct (newBatchSchema data) as [d | issues] eqn:E.
    + intros _ _. apply newBatchSchema_Success in E. tauto.
    + intros [= <-] Hne. by destruct Hne.
  - intros data now st Hp Hn. unfold NewBatchModal_handleSubmit.
    assert (Hr : newBatch_refine data = ["pgfnInitial"])
      by (unfold newBatch_refine; by rewrite Hp, Hn).
    destruct (newBatch_object data ++ newBatch_refine data) as [| i issues] eqn:E.
    { rewrite Hr in E. by destruct (newBatch_object data). }
    rewrite (newBatchSchema_Failure _ _ _ E).
    exists (i :: issues), (setErrors (getZodFieldErrors (i :: issues)) st).
    repeat split. rewrite <- E, Hr. apply elem_of_app. right. apply list_elem_of_here.
Qed.

Lemma creation_needs_a_document_witness :
  (0 ≤ nb_pgfnInitial sample_new ∧ 0 ≤ nb_normalInitial sample_new
   ∧ (0 < nb_pgfnInitial sample_new ∨ 0 < nb_normalInitial sample_new))
  ∧ (∃ issues st',
        NewBatchModal_handleSubmit
          (mkNewBatchForm "C1" 0 0 (Some 1000) (Some 2000) "") 2 sample_open = Normal st'
        ∧ st' = setErrors (getZodFieldErrors issues) sample_open
        ∧ "pgfnInitial" ∈ issues
        ∧ batches st' = batches sample_open
        ∧ deliveryPeople st' = deliveryPeople sample_open).
Proof.
  destruct creation_needs_a_document as (Honly & Hzero). split.
  - apply (Honly sample_new 1 initial sample_open); [reflexivity | discriminate].
  - apply Hzero; reflexivity.
Defined.

(** ** Cascading delete *)

(** C4.  Deleting a person whose id is in the store returns normally, in
    one transition; afterwards no person has that id, the other people
    are all still there, and the batch list is the old one without the
    batches of that person: those are all gone, the others are all kept,
    in their order. *)
Theorem deleteDeliveryPerson_cascades :
  ∀ personId st,
    personId ∈ DeliveryPerson.id <$> deliveryPeople st →
    ∃ st',
      deleteDeliveryPerson personId st = Normal st'
      ∧ (personId ∉ DeliveryPerson.id <$> deliveryPeople st')
      ∧ (∀ p, p ∈ deliveryPeople st'
              ↔ p ∈ deliveryPeople st ∧ DeliveryPerson.id p ≠ personId)
      ∧ (∀ b, b ∈ batches st' ↔ b ∈ batches st ∧ Batch.deliveryPersonId b ≠ personId)
      ∧ (batches st' `sublist_of` batches st)
      ∧ (length (deliveryPeople st') < length (deliveryPeople st))%nat.
Proof.
  intros personId st Hin. eexists. split; [done |]. simpl.
  split; [| split; [| split; [| split]]].
  - intros (p & E & Hp)%list_elem_of_fmap.
    apply list_elem_of_filter in Hp as [Hne _]. by apply Hne.
  - intros p. rewrite list_elem_of_filter. tauto.
  - intros b. rewrite list_elem_of_filter. tauto.
  - apply sublist_filter.
  - apply list_elem_of_fmap in Hin as (p & -> & Hp).
    induction (deliveryPeople st) as [| q l IH]; [by apply elem_of_nil in Hp |].
    apply elem_of_cons in Hp as [<- | Hp].
    + rewrite filter_cons_False by (by intros ?). simpl.
      pose proof (length_filter (λ p0, DeliveryPerson.id p0 ≠ DeliveryPerson.id p) l).
      lia.
    + rewrite filter_cons. specialize (IH Hp). case_decide; simpl; lia.
Qed.

Lemma deleteDeliveryPerson_cascades_witness :
  ∃ st',
    deleteDeliveryPerson "C1" (mkState [sample_finalized] [sample_person] ∅) = Normal st'
    ∧ ("C1" ∉ DeliveryPerson.id <$> deliveryPeople st')
    ∧ (∀ p, p ∈ deliveryPeople st'
            ↔ p ∈ [sample_person] ∧ DeliveryPerson.id p ≠ "C1")
    ∧ (∀ b, b ∈ batches st' ↔ b ∈ [sample_finalized] ∧ Batch.deliveryPersonId b ≠ "C1")
    ∧ (batches st' `sublist_of` [sample_finalized])
    ∧ (length (deliveryPeople st') < length [sample_person])%nat.
Proof.
  apply (deleteDeliveryPerson_cascades "C1" (mkState [sample_finalized] [sample_person] ∅)).
  simpl. apply list_elem_of_here.
Defined.

(** ** Temporal partition *)

Lemma Qgtb_diffDays now ret :
  Qgtb (diffDays now ret) (inject_Z ARCHIVE_DELAY_DAYS) = true
  ↔ ARCHIVE_DELAY_DAYS * msPerDay < now - ret.
Proof.
  unfold Qgtb. rewrite negb_true_iff, <- not_true_iff_false, Qle_bool_iff.
  unfold diffDays, Qle, Qdiv, Qmult, Qinv, inject_Z, ARCHIVE_DELAY_DAYS, msPerDay.
  simpl. lia.
Qed.

Lemma partition_visit_spec now main archived b :
  partition_visit now (main, archived) b
  = if decide (archived_at now b) then (main, archived ++ [b]) else (main ++ [b], archived).
Proof.
  unfold partition_visit.
  destruct (decide (archived_at now b)) as [(Hs & ret & Hr & Hlt) | Hn].
  - rewrite Hs, Hr. apply Qgtb_diffDays in Hlt. by rewrite Hlt.
  - destruct (Batch.status b) eqn:Hs; [done |].
    destruct (Batch.returnDatetime b) as [ret |] eqn:Hr; [| done].
    destruct (Qgtb (diffDays now ret) (inject_Z ARCHIVE_DELAY_DAYS)) eqn:E; [| done].
    apply Qgtb_diffDays in E. exfalso. apply Hn. split; [done |]. by exists ret.
Qed.

Lemma foldl_partition_visit now l main archived :
  foldl (partition_visit now) (main, archived) l
  = (main ++ filter (λ b, ¬ archived_at now b) l, archived ++ filter (archived_at now) l).
Proof.
  revert main archived. induction l as [| b l IH]; intros main archived.
  - simpl. by rewrite !app_nil_r.
  - cbn [foldl]. rewrite partition_visit_spec, !filter_cons.
    destruct (decide (archived_at now b)) as [Ha | Ha].
    + rewrite IH, decide_False by tauto. by rewrite <- app_assoc.
    + rewrite IH, decide_True by done. by rewrite <- app_assoc.
Qed.

Lemma sort_insert_perm {A} (compareFn : A → A → Z) x l :
  sort_insert compareFn x l ≡ₚ x :: l.
Proof.
  induction l as [| y l IH]; simpl; [done |].
  case_match; [| done]. rewrite IH. apply Permutation_swap.
Qed.

Lemma Array_sort_perm {A} (compareFn : A → A → Z) l : Array_sort compareFn l ≡ₚ l.
Proof.
  induction l as [| x l IH]; simpl; [done |].
  by rewrite sort_insert_perm, IH.
Qed.

Lemma sort_insert_HdRel y x l :
  later_first y x → HdRel later_first y l → HdRel later_first y (sort_insert sortFn x l).
Proof.
  intros Hyx Hl. destruct l as [| z l]; simpl; [by constructor |].
  case_match; constructor; [by inversion Hl | done].
Qed.

Lemma sort_insert_Sorted x l :
  Sorted later_first l → Sorted later_first (sort_insert sortFn x l).
Proof.
  induction 1 as [| y l Hl IH Hy]; simpl; [by repeat constructor |].
  destruct (Z.ltb_spec 0 (sortFn x y)) as [Hlt | Hle].
  - constructor; [done |]. apply sort_insert_HdRel; [| done].
    unfold later_first, sortFn in *. lia.
  - constructor; [by constructor |]. constructor. unfold later_first, sortFn in *. lia.
Qed.

(** Both lists of the partition come out with the latest departure first. *)
Lemma Array_sort_sortFn_Sorted l : Sorted later_first (Array_sort sortFn l).
Proof.
  induction l as [| x l IH]; simpl; [constructor |]. by apply sort_insert_Sorted.
Qed.

Lemma partitionBatches_spec now l :
  partitionBatches now l
  = (Array_sort sortFn (filter (λ b, ¬ archived_at now b) l),
     Array_sort sortFn (filter (archived_at now) l)).
Proof. unfold partitionBatches. by rewrite foldl_partition_visit. Qed.

Lemma elem_of_archivedBatches now l b :
  b ∈ archivedBatches now l ↔ b ∈ l ∧ archived_at now b.
Proof.
  unfold archivedBatches. rewrite partitionBatches_spec. simpl.
  rewrite Array_sort_perm, list_elem_of_filter. tauto.
Qed.

Lemma elem_of_dashboardBatches now l b :
  b ∈ dashboardBatches now l ↔ b ∈ l ∧ ¬ archived_at now b.
Proof.
  unfold dashboardBatches. rewrite partitionBatches_spec. simpl.
  rewrite Array_sort_perm, list_elem_of_filter. tauto.
Qed.

(** C5.  The archival delay is four days of 86 400 000 ms.  A finalized
    batch of the collection with a return instant is listed under
    Archived exactly when [now] minus that instant exceeds the delay and
    under Active exactly when it is at most the delay, so at exactly four
    days it is Active and not Archived; a pending batch is always Active
    and never Archived. *)
Theorem partition_boundary :
  ARCHIVE_DELAY_DAYS * msPerDay = 4 * 86400000
  ∧ ∀ now l b,
      b ∈ l →
      (∀ ret,
          Batch.status b = finalized → Batch.returnDatetime b = Some ret →
          (b ∈ archivedBatches now l ↔ ARCHIVE_DELAY_DAYS * msPerDay < now - ret)
          ∧ (b ∈ dashboardBatches now l ↔ now - ret ≤ ARCHIVE_DELAY_DAYS * msPerDay)
          ∧ (now - ret = ARCHIVE_DELAY_DAYS * msPerDay →
             b ∈ dashboardBatches now l ∧ b ∉ archivedBatches now l))
      ∧ (Batch.status b = pending →
         b ∈ dashboardBatches now l ∧ b ∉ archivedBatches now l).
Proof.
  split; [done |]. intros now l b Hb.
  assert (Hfin : ∀ ret, Batch.status b = finalized → Batch.returnDatetime b = Some ret →
                        archived_at now b ↔ ARCHIVE_DELAY_DAYS * msPerDay < now - ret).
  { intros ret Hs Hr. unfold archived_at. split.
    - intros (_ & ret' & E & Hlt). congruence.
    - intros Hlt. split; [done |]. by exists ret. }
  split.
  - intros ret Hs Hr. specialize (Hfin ret Hs Hr).
    rewrite elem_of_archivedBatches, elem_of_dashboardBatches, Hfin.
    split; [tauto |]. split; [split; [lia | intros; split; [done | lia]] |].
    intros E. split; [split; [done | lia] | lia].
  - intros Hs. rewrite elem_of_archivedBatches, elem_of_dashboardBatches.
    assert (¬ archived_at now b) by (intros [? _]; congruence). tauto.
Qed.

Lemma partition_boundary_witness :
  ((sample_finalized ∈ archivedBatches (5000 + 4 * 86400000) [sample_finalized]
    ↔ ARCHIVE_DELAY_DAYS * msPerDay < 5000 + 4 * 86400000 - 5000)
   ∧ (sample_finalized ∈ dashboardBatches (5000 + 4 * 86400000) [sample_finalized]
      ↔ 5000 + 4 * 86400000 - 5000 ≤ ARCHIVE_DELAY_DAYS * msPerDay)
   ∧ (5000 + 4 * 86400000 - 5000 = ARCHIVE_DELAY_DAYS * msPerDay →
      sample_finalized ∈ dashboardBatches (5000 + 4 * 86400000) [sample_finalized]
      ∧ sample_finalized ∉ archivedBatches (5000 + 4 * 86400000) [sample_finalized]))
  ∧ (sample_pending ∈ dashboardBatches 9000000000 [sample_pending]
     ∧ sample_pending ∉ archivedBatches 9000000000 [sample_pending]).
Proof.
  destruct partition_boundary as [_ H]. split.
  - apply (H (5000 + 4 * 86400000) [sample_finalized] sample_finalized);
      [apply list_elem_of_here | reflexivity | reflexivity].
  - apply (H 9000000000 [sample_pending] sample_pending);
      [apply list_elem_of_here | reflexivity].
Defined.

(** ** Aggregation *)

Lemma or0_default x : or0 x = default 0 x.
Proof. destruct x as [v |]; [| done]. simpl. by destruct (Z.eqb_spec v 0). Qed.

Lemma Zsum_filter (P : Batch.t → Prop) `{∀ b, Decision (P b)} f l :
  Zsum f (filter P l) = Zsum (λ b, if decide (P b) then f b else 0) l.
Proof.
  induction l as [| b l IH]; [done |].
  rewrite filter_cons. simpl. case_decide; simpl; lia.
Qed.

Lemma Zsum_ext f g l : (∀ b, b ∈ l → f b = g b) → Zsum f l = Zsum g l.
Proof.
  induction l as [| b l IH]; [done |]. intros H. simpl.
  rewrite (H b) by apply list_elem_of_here. rewrite IH; [done |].
  intros b' Hb'. apply H. by apply list_elem_of_further.
Qed.

Lemma aggregate_visit_summary s perf b :
  fst (aggregate_visit (s, perf) b)
  = if counted b
    then {| totalGains := totalGains s + default 0 (Batch.totalValue b);
            totalDelivered := totalDelivered s + batch_delivered b;
            totalReturned := totalReturned s + batch_returned b;
            totalAbsent := totalAbsent s + batch_absent b |}
    else s.
Proof.
  unfold aggregate_visit. destruct (counted b); [| done].
  by destruct (perf !! Batch.deliveryPersonId b).
Qed.

Lemma aggregate_visit_performance s perf b k :
  snd (aggregate_visit (s, perf) b) !! k
  = (λ e, if counted b && bool_decide (Batch.deliveryPersonId b = k)
          then {| gains := gains e + default 0 (Batch.totalValue b);
                  delivered := delivered e + batch_delivered b;
                  returned := returned e + batch_returned b;
                  name := name e |}
          else e) <$> perf !! k.
Proof.
  unfold aggregate_visit. destruct (counted b); simpl.
  - destruct (perf !! Batch.deliveryPersonId b) as [e |] eqn:E; simpl.
    + destruct (decide (Batch.deliveryPersonId b = k)) as [<- | Hne].
      * rewrite lookup_insert_eq, E. simpl. by rewrite bool_decide_eq_true_2.
      * rewrite lookup_insert_ne by done. rewrite bool_decide_eq_false_2 by done.
        by destruct (perf !! k).
    + destruct (decide (Batch.deliveryPersonId b = k)) as [<- | Hne].
      * by rewrite E.
      * rewrite bool_decide_eq_false_2 by done. by destruct (perf !! k).
  - by destruct (perf !! k).
Qed.

(** What the loop over the dashboard batches accumulates. *)
Lemma aggregate_fold_summary l s perf :
  fst (foldl aggregate_visit (s, perf) l)
  = {| totalGains :=
         totalGains s + Zsum (λ b, if counted b then default 0 (Batch.totalValue b) else 0) l;
       totalDelivered :=
         totalDelivered s + Zsum (λ b, if counted b then batch_delivered b else 0) l;
       totalReturned :=
         totalReturned s + Zsum (λ b, if counted b then batch_returned b else 0) l;
       totalAbsent :=
         totalAbsent s + Zsum (λ b, if counted b then batch_absent b else 0) l |}.
Proof.
  revert s perf. induction l as [| b l IH]; intros s perf.
  - destruct s. simpl. f_equal; lia.
  - cbn [foldl]. pose proof (aggregate_visit_summary s perf b) as Hs.
    destruct (aggregate_visit (s, perf) b) as [s1 perf1]. simpl in Hs. subst s1.
    rewrite IH. simpl. destruct (counted b); simpl; f_equal; lia.
Qed.

Lemma aggregate_fold_performance l s perf k :
  snd (foldl aggregate_visit (s, perf) l) !! k
  = (λ e,
       {| gains :=
            gains e
            + Zsum (λ b, if counted b && bool_decide (Batch.deliveryPersonId b = k)
                         then default 0 (Batch.totalValue b) else 0) l;
          delivered :=
            delivered e
            + Zsum (λ b, if counted b && bool_decide (Batch.deliveryPersonId b = k)
                         then batch_delivered b else 0) l;
          returned :=
            returned e
            + Zsum (λ b, if counted b && bool_decide (Batch.deliveryPersonId b = k)
                         then batch_returned b else 0) l;
          name := name e |}) <$> perf !! k.
Proof.
  revert s perf. induction l as [| b l IH]; intros s perf.
  - simpl. destruct (perf !! k) as [[g d r n] |]; simpl; [| done].
    do 2 f_equal; lia.
  - cbn [foldl]. pose proof (aggregate_visit_performance s perf b k) as Hp.
    destruct (aggregate_visit (s, perf) b) as [s1 perf1]. simpl in Hp.
    rewrite IH, Hp. destruct (perf !! k) as [e |]; simpl; [| done].
    destruct (counted b && bool_decide (Batch.deliveryPersonId b = k)); simpl;
      do 2 f_equal; lia.
Qed.

(** The roster loop gives every person an entry of zeros. *)
Lemma performance_init_other people (m : gmap string Performance) k :
  k ∉ DeliveryPerson.id <$> people →
  foldl (λ performance p,
           <[DeliveryPerson.id p :=
               {| gains := 0; delivered := 0; returned := 0;
                  name := DeliveryPerson.name p |}]> performance) m people !! k
  = m !! k.
Proof.
  revert m. induction people as [| p l IH]; intros m; [done |].
  rewrite fmap_cons, not_elem_of_cons. intros [Hne Hl].
  cbn [foldl]. rewrite IH by done. by rewrite lookup_insert_ne.
Qed.

Lemma performance_init_lookup people k :
  k ∈ DeliveryPerson.id <$> people →
  ∃ n, performance_init people !! k
       = Some {| gains := 0; delivered := 0; returned := 0; name := n |}.
Proof.
  unfold performance_init. generalize (∅ : gmap string Performance).
  induction people as [| q l IH]; intros m Hk; [by apply elem_of_nil in Hk |].
  cbn [foldl].
  destruct (decide (k ∈ DeliveryPerson.id <$> l)) as [Hin | Hout]; [by apply IH |].
  rewrite performance_init_other by done.
  rewrite fmap_cons in Hk. apply elem_of_cons in Hk as [-> | Hk]; [| done].
  rewrite lookup_insert_eq. by eexists.
Qed.

(** A reconciled batch that the loop skips has nothing delivered and
    nothing returned. *)
Lemma stored_counts_Some b c :
  stored_counts b = Some c →
  Batch.pgfnDelivered b = Some (c_pgfnDelivered c)
  ∧ Batch.pgfnReturned b = Some (c_pgfnReturned c)
  ∧ Batch.pgfnAbsent b = Some (c_pgfnAbsent c)
  ∧ Batch.normalDelivered b = Some (c_normalDelivered c)
  ∧ Batch.normalReturned b = Some (c_normalReturned c)
  ∧ Batch.normalAbsent b = Some (c_normalAbsent c).
Proof.
  unfold stored_counts.
  destruct (Batch.pgfnDelivered b), (Batch.pgfnReturned b), (Batch.pgfnAbsent b),
    (Batch.normalDelivered b), (Batch.normalReturned b), (Batch.normalAbsent b);
    simpl; try done.
  by intros [= <-].
Qed.

Lemma or0_Some v : or0 (Some v) = v.
Proof. simpl. by destruct (Z.eqb_spec v 0). Qed.

Lemma skipped_batch_is_empty b :
  reconciled b → Batch.status b = finalized → counted b = false →
  default 0 (Batch.totalValue b) = 0 ∧ batch_delivered b = 0 ∧ batch_returned b = 0.
Proof.
  intros Hr Hs Hc. destruct (Hr Hs) as (c & Hsc & _ & Hn & Htv & _).
  unfold counted in Hc. rewrite bool_decide_eq_true_2 in Hc by done. simpl in Hc.
  rewrite Htv in Hc |- *. simpl in Hc |- *.
  apply negb_false_iff, Z.eqb_eq in Hc.
  apply stored_counts_Some in Hsc as (Hpd & Hpr & _ & Hnd & Hnr & _).
  unfold batch_delivered, batch_returned. rewrite Hpd, Hpr, Hnd, Hnr, !or0_Some.
  unfold totalPaidItems, DELIVERY_FEE in *. unfold non_negative in Hn. lia.
Qed.

Lemma counted_finalized b : counted b = true → Batch.status b = finalized.
Proof. unfold counted. intros [H _]%andb_true_iff. by apply bool_decide_eq_true in H. Qed.

(** For reconciled batches the payable sums of the loop are the sums
    over the finalized batches of the courier. *)
Lemma counted_sum_of_courier f k l :
  (∀ b, b ∈ l → Batch.status b = finalized → counted b = false → f b = 0) →
  Zsum (λ b, if counted b && bool_decide (Batch.deliveryPersonId b = k) then f b else 0) l
  = Zsum f (finalizedBatchesOf k l).
Proof.
  intros Hskip. unfold finalizedBatchesOf, finalizedBatches.
  rewrite !Zsum_filter. apply Zsum_ext. intros b Hb.
  destruct (counted b) eqn:Hc; simpl.
  - rewrite (decide_True _ _ (counted_finalized b Hc)).
    destruct (decide (Batch.deliveryPersonId b = k)).
    + by rewrite bool_decide_eq_true_2.
    + by rewrite bool_decide_eq_false_2.
  - destruct (decide (Batch.status b = finalized)) as [Hs |]; [| done].
    case_decide; [| done]. symmetry. by apply Hskip.
Qed.

Lemma counted_sum_finalized f l :
  (∀ b, b ∈ l → Batch.status b = finalized → counted b = false → f b = 0) →
  Zsum (λ b, if counted b then f b else 0) l = Zsum f (finalizedBatches l).
Proof.
  intros Hskip. unfold finalizedBatches. rewrite Zsum_filter. apply Zsum_ext.
  intros b Hb. destruct (counted b) eqn:Hc.
  - by rewrite (decide_True _ _ (counted_finalized b Hc)).
  - case_decide; [| done]. symmetry. by apply Hskip.
Qed.

(** The system summary: over reconciled batches the payable value, the
    delivered and the returned totals range over all finalized batches;
    the absent total ranges over those the loop does not skip. *)
Lemma summary_totals dashboard people :
  Forall reconciled dashboard →
  totalGains (summary dashboard people)
  = Zsum (λ b, or0 (Batch.totalValue b)) (finalizedBatches dashboard)
  ∧ totalDelivered (summary dashboard people)
    = Zsum batch_delivered (finalizedBatches dashboard)
  ∧ totalReturned (summary dashboard people)
    = Zsum batch_returned (finalizedBatches dashboard)
  ∧ totalAbsent (summary dashboard people)
    = Zsum batch_absent (filter (λ b, counted b = true) dashboard).
Proof.
  intros Hrec. rewrite Forall_forall in Hrec.
  unfold summary, aggregate. rewrite aggregate_fold_summary. simpl.
  repeat split.
  - rewrite counted_sum_finalized.
    + apply Zsum_ext. intros b _. by rewrite or0_default.
    + intros b Hb Hs Hc. by apply skipped_batch_is_empty; [apply Hrec | |].
  - rewrite counted_sum_finalized; [done |].
    intros b Hb Hs Hc. by apply skipped_batch_is_empty; [apply Hrec | |].
  - rewrite counted_sum_finalized; [done |].
    intros b Hb Hs Hc. by apply skipped_batch_is_empty; [apply Hrec | |].
  - rewrite Zsum_filter. apply Zsum_ext. intros b _.
    destruct (counted b); [by rewrite decide_True | by rewrite decide_False].
Qed.

Lemma sample_finalized_reconciled : reconciled sample_finalized.
Proof.
  intros _. exists sample_counts. split; [done |].
  split; [by split |]. split; [| by split; [| eexists]].
  unfold non_negative. simpl. lia.
Qed.

Lemma sample_all_absent_reconciled : reconciled sample_all_absent.
Proof.
  intros _. exists (mkCounts 0 0 10 0 0 0). split; [done |].
  split; [by split |]. split; [| by split; [| eexists]].
  unfold non_negative. simpl. lia.
Qed.

(** While the edit handler throws, the dashboard of a reachable state
    holds reconciled batches only. *)
Lemma reachable_dashboard_reconciled e localeCompare st now :
  reachable (OmitThrows e) localeCompare st →
  Forall reconciled (dashboardBatches now (batches st)).
Proof.
  intros [_ Hrec]%reachable_store_ok. rewrite Forall_forall in Hrec |- *.
  intros b [Hb _]%elem_of_dashboardBatches. by apply Hrec.
Qed.

Lemma reachable_dashboard_valued omit localeCompare st now :
  reachable omit localeCompare st →
  Forall valued (dashboardBatches now (batches st)).
Proof.
  intros [_ Hval]%reachable_ids_valued. rewrite Forall_forall in Hval |- *.
  intros b [Hb _]%elem_of_dashboardBatches. by apply Hval.
Qed.

(** C6.  A batch finalized with every document absent is reconciled and
    stays on the dashboard, with a [totalValue] of 0; the summary loop
    skips it, so the absent total it reports is 0 where the sum over the
    finalized batches of the input is 10. *)
Theorem summary_skips_all_absent_batch :
  FinalizeBatchModal_handleSubmit sample_pending sample_absent_form sample_open
  = Normal {| batches := [sample_all_absent]; deliveryPeople := []; errors := ∅ |}
  ∧ dashboardBatches 6000 [sample_all_absent] = [sample_all_absent]
  ∧ totalAbsent (summary [sample_all_absent] [sample_person]) = 0
  ∧ Zsum batch_absent (finalizedBatches [sample_all_absent]) = 10.
Proof. repeat split. Qed.

Lemma skipped_valued_batch_is_empty b :
  valued b → Batch.status b = finalized → counted b = false →
  default 0 (Batch.totalValue b) = 0 ∧ batch_delivered b = 0 ∧ batch_returned b = 0.
Proof.
  intros Hv Hs Hc. destruct (Hv Hs) as (c & Hsc & Hn & Htv & _).
  unfold counted in Hc. rewrite bool_decide_eq_true_2 in Hc by done. simpl in Hc.
  rewrite Htv in Hc |- *. simpl in Hc |- *.
  apply negb_false_iff, Z.eqb_eq in Hc.
  apply stored_counts_Some in Hsc as (Hpd & Hpr & _ & Hnd & Hnr & _).
  unfold batch_delivered, batch_returned. rewrite Hpd, Hpr, Hnd, Hnr, !or0_Some.
  unfold totalPaidItems, DELIVERY_FEE in *. unfold non_negative in Hn. lia.
Qed.

(** Where every finalized batch of the input carries the value computed
    from its counts (as in every state the handlers reach), the entry of a
    person of the roster holds the sums of the stored fields over that
    person's finalized batches. *)
Lemma performance_of_valued dashboard people p :
  Forall valued dashboard →
  p ∈ people →
  ∃ e,
    performance dashboard people !! DeliveryPerson.id p = Some e
    ∧ gains e = Zsum (λ b, default 0 (Batch.totalValue b))
                     (finalizedBatchesOf (DeliveryPerson.id p) dashboard)
    ∧ delivered e
      = Zsum (λ b, default 0 (Batch.pgfnDelivered b)
                   + default 0 (Batch.normalDelivered b))
             (finalizedBatchesOf (DeliveryPerson.id p) dashboard)
    ∧ returned e
      = Zsum (λ b, default 0 (Batch.pgfnReturned b)
                   + default 0 (Batch.normalReturned b))
             (finalizedBatchesOf (DeliveryPerson.id p) dashboard).
Proof.
  intros Hval Hp. rewrite Forall_forall in Hval.
  destruct (performance_init_lookup people (DeliveryPerson.id p)) as [n Hn];
    [by apply list_elem_of_fmap_2 |].
  unfold performance, aggregate. rewrite aggregate_fold_performance, Hn. simpl.
  eexists. split; [done |]. simpl.
  rewrite !counted_sum_of_courier;
    try (intros b Hb Hs Hc; by apply skipped_valued_batch_is_empty; [apply Hval | |]).
  split; [done |].
  split; apply Zsum_ext; intros b _; unfold batch_delivered, batch_returned;
    by rewrite !or0_default.
Qed.


(** ** Updating and deleting an id that is not in the store *)

Lemma setBatches_same f st : f (batches st) = batches st → setBatches f st = st.
Proof. intros E. destruct st. unfold setBatches. simpl in *. by rewrite E. Qed.

(** C8, as the code has it.  For an id that no stored batch carries,
    [updateBatch] and [deleteBatch] return normally and the state after
    the call is the state before it. *)
Theorem absent_id_is_a_silent_no_op :
  (∀ updatedBatch st,
      Batch.id updatedBatch ∉ Batch.id <$> batches st →
      updateBatch updatedBatch st = Normal st)
  ∧ (∀ batchId st,
        batchId ∉ Batch.id <$> batches st →
        deleteBatch batchId st = Normal st).
Proof.
  split.
  - intros u st Hid. unfold updateBatch. f_equal.
    apply setBatches_same. by apply replace_absent.
  - intros i st Hid. unfold deleteBatch. f_equal.
    apply setBatches_same. by apply filter_absent.
Qed.

Lemma absent_id_is_a_silent_no_op_witness :
  updateBatch sample_stray sample_open = Normal sample_open
  ∧ deleteBatch "2" sample_open = Normal sample_open.
Proof.
  destruct absent_id_is_a_silent_no_op as [Hupdate Hdelete]. split.
  - apply Hupdate. simpl. by intros [? | ?%elem_of_nil]%elem_of_cons.
  - apply Hdelete. simpl. by intros [? | ?%elem_of_nil]%elem_of_cons.
Defined.

(** C8, as stated, fails: with the id ["2"] absent from the store, both
    calls return normally instead of throwing, and nothing is reported. *)
Lemma absent_id_raises_nothing :
  ("2" ∉ Batch.id <$> batches sample_open)
  ∧ Batch.id sample_stray = "2"
  ∧ ¬ (∃ e, updateBatch sample_stray sample_open = Throw e)
  ∧ ¬ (∃ e, deleteBatch "2" sample_open = Throw e)
  ∧ updateBatch sample_stray sample_open = Normal sample_open
  ∧ deleteBatch "2" sample_open = Normal sample_open.
Proof.
  split; [simpl; by intros [? | ?%elem_of_nil]%elem_of_cons |].
  split; [done |].
  split; [by intros [e ?] |]. split; [by intros [e ?] |].
  split; reflexivity.
Qed.

(** ** Status transitions *)

Lemma onBatchClick_pending b :
  DashboardView_onBatchClick b = finalizeBatch ↔ Batch.status b = pending.
Proof. unfold DashboardView_onBatchClick. by case_decide. Qed.

Lemma elem_of_ids (l : list Batch.t) b : b ∈ l → Batch.id b ∈ Batch.id <$> l.
Proof. apply list_elem_of_fmap_2. Qed.

(** One enabled action, seen from a stored batch and the batch that has
    its id afterwards. *)
Lemma action_on_status omit localeCompare st a st' b b' :
  NoDup (Batch.id <$> batches st) →
  enabled a st → run omit localeCompare a st = Normal st' →
  b ∈ batches st → b' ∈ batches st' → Batch.id b' = Batch.id b →
  (Batch.status b' = Batch.status b
   ∨ ∃ data r, a = SubmitFinalize b data
               ∧ createFinalizeBatchSchema b data = Success r
               ∧ Batch.status b = pending ∧ Batch.status b' = finalized).
Proof.
  intros Hnd Hen Hrun Hb Hb' Hid.
  assert (Hsame : b' ∈ batches st → Batch.status b' = Batch.status b).
  { intros Hin. by rewrite (NoDup_ids_eq _ _ _ Hnd Hin Hb Hid). }
  destruct a as [data now | person data | personId | data now | batch data
                | batch data | batchId].
  - apply handleSubmit_person_batches in Hrun; [| done]. rewrite Hrun in Hb'. auto.
  - apply handleSubmit_person_batches in Hrun; [| done]. rewrite Hrun in Hb'. auto.
  - injection Hrun as <-. rewrite batches_setBatches in Hb'.
    apply list_elem_of_filter in Hb' as [_ Hb']. auto.
  - unfold run, NewBatchModal_handleSubmit, addBatch in Hrun. simpl in Hen.
    destruct (newBatchSchema data) as [d |]; injection Hrun as <-; [| auto].
    rewrite batches_setBatches in Hb'. apply elem_of_cons in Hb' as [-> | Hb']; [| auto].
    exfalso. apply Hen. simpl in Hid. rewrite Hid. by apply elem_of_ids.
  - unfold run, FinalizeBatchModal_handleSubmit, updateBatch in Hrun.
    destruct Hen as [Hbatch Hclick]. apply onBatchClick_pending in Hclick.
    destruct (createFinalizeBatchSchema batch data) as [r |] eqn:E;
      injection Hrun as <-; [| auto].
    rewrite batches_setBatches in Hb'.
    apply replace_elem_of in Hb' as [[-> _] | [Hb' _]]; [| auto].
    simpl in Hid. assert (batch = b) as -> by by apply (NoDup_ids_eq _ _ _ Hnd).
    right. by exists data, r.
  - simpl in Hrun, Hen.
    apply EditBatchModal_handleSubmit_Normal in Hrun as (_ & [[Hn Hrun] | [issues ->]]);
      [| auto].
    unfold updateBatch in Hrun. injection Hrun as <-.
    rewrite batches_setBatches in Hb'.
    apply replace_elem_of in Hb' as [[-> _] | [Hb' _]]; [| auto].
    simpl in Hid. assert (batch = b) as -> by by apply (NoDup_ids_eq _ _ _ Hnd).
    by left.
  - injection Hrun as <-. rewrite batches_setBatches in Hb'.
    apply list_elem_of_filter in Hb' as [_ Hb']. auto.
Qed.

(** C9, as the code has it.  A click on a dashboard card opens the
    finalize modal exactly for a pending batch.  Along any enabled action
    from a reachable state, a finalized batch is still finalized if its
    id is still in the store, and a pending batch whose id carries a
    finalized batch afterwards was the subject of a successful finalize
    submit.  The finalize handler itself does not read the status: on a
    batch that is already finalized it replaces the stored record by the
    newly reconciled one whenever the form parses. *)
Theorem status_only_moves_forward :
  (∀ b, DashboardView_onBatchClick b = finalizeBatch ↔ Batch.status b = pending)
  ∧ (∀ omit localeCompare st a st' b b',
        reachable omit localeCompare st →
        enabled a st → run omit localeCompare a st = Normal st' →
        b ∈ batches st → b' ∈ batches st' → Batch.id b' = Batch.id b →
        (Batch.status b = finalized → Batch.status b' = finalized)
        ∧ (Batch.status b = pending → Batch.status b' = finalized →
           ∃ data r, a = SubmitFinalize b data
                     ∧ createFinalizeBatchSchema b data = Success r))
  ∧ (∀ st k batch data r,
        batches st !! k = Some batch →
        Batch.status batch = finalized →
        createFinalizeBatchSchema batch data = Success r →
        ∃ st',
          FinalizeBatchModal_handleSubmit batch data st = Normal st'
          ∧ batches st' !! k
            = Some (finalized_batch batch (fd_returnDatetime r) (ff_counts data))).
Proof.
  split; [apply onBatchClick_pending | split].
  - intros omit lc st a st' b b' Hreach Hen Hrun Hb Hb' Hid.
    apply reachable_ids_valued in Hreach as [Hnd _].
    destruct (action_on_status omit lc st a st' b b' Hnd Hen Hrun Hb Hb' Hid)
      as [E | (data & r & -> & Hparse & Hp & Hf)].
    + split; [congruence |]. intros Hp Hf. congruence.
    + split; [done |]. intros _ _. by exists data, r.
  - intros st k batch data r Hk Hs E.
    unfold FinalizeBatchModal_handleSubmit, updateBatch. rewrite E.
    apply createFinalizeBatchSchema_Success in E as (_ & -> & _).
    eexists. split; [done |]. rewrite batches_setBatches.
    by apply replace_lookup_self with batch.
Qed.

Lemma status_only_moves_forward_witness :
  ((Batch.status sample_pending = finalized → Batch.status sample_finalized = finalized)
   ∧ (Batch.status sample_pending = pending → Batch.status sample_finalized = finalized →
      ∃ data r, SubmitFinalize sample_pending sample_form = SubmitFinalize sample_pending data
                ∧ createFinalizeBatchSchema sample_pending data = Success r))
  ∧ (∃ st',
        FinalizeBatchModal_handleSubmit sample_finalized sample_again_form sample_closed
        = Normal st'
        ∧ batches st' !! 0%nat
          = Some (finalized_batch sample_finalized 9000 (ff_counts sample_again_form))).
Proof.
  destruct status_only_moves_forward as (_ & Hstep & Hagain). split.
  - apply (Hstep (OmitThrows "TypeError") sample_compare sample_open
             (SubmitFinalize sample_pending sample_form)
             sample_closed sample_pending sample_finalized).
    + apply sample_open_reachable.
    + split; [apply list_elem_of_here | reflexivity].
    + reflexivity.
    + apply list_elem_of_here.
    + apply list_elem_of_here.
    + reflexivity.
  - apply (Hagain sample_closed 0%nat sample_finalized sample_again_form
             (mkFinalizeData 9000 (ff_counts sample_again_form))); reflexivity.
Defined.

(** C9, as stated, fails: finalizing the already finalized sample batch
    again does not fail; the handler returns normally and the stored
    return instant, counts and [totalValue] are replaced. *)
Lemma finalize_again_overwrites :
  sample_finalized ∈ batches sample_closed
  ∧ Batch.status sample_finalized = finalized
  ∧ FinalizeBatchModal_handleSubmit sample_finalized sample_again_form sample_closed
    = Normal {| batches := [sample_refinalized]; deliveryPeople := []; errors := ∅ |}
  ∧ sample_refinalized ≠ sample_finalized
  ∧ Batch.totalValue sample_refinalized ≠ Batch.totalValue sample_finalized.
Proof.
  split; [apply list_elem_of_here |]. repeat split; by intros [=].
Qed.

(** ** The frame of a finalize *)

Lemma replace_lookup_elsewhere i u (l : list Batch.t) k j batch :
  NoDup (Batch.id <$> l) → l !! k = Some batch → Batch.id batch = i → j ≠ k →
  ((λ b, if decide (Batch.id b = i) then u else b) <$> l) !! j = l !! j.
Proof.
  intros Hnd Hk Hi Hj. rewrite list_lookup_fmap.
  destruct (l !! j) as [b |] eqn:E; [| done]. simpl.
  case_decide as Hid; [| done]. exfalso. apply Hj.
  apply (NoDup_lookup (Batch.id <$> l) j k i); [done | |].
  - by rewrite list_lookup_fmap, E; simpl; rewrite Hid.
  - by rewrite list_lookup_fmap, Hk; simpl; rewrite Hi.
Qed.

(** C10.  In a store whose ids are distinct, a successful finalize
    submit on the pending batch at position [k] puts there a batch with
    the same id, deliveryPersonId, pgfnInitial, normalInitial,
    departureDatetime, estimatedReturnDate and description, now finalized
    with the submitted return instant and counts; every other position of
    the batch list, its length and the people are as before. *)
Theorem finalize_frame :
  ∀ st k batch data r,
    NoDup (Batch.id <$> batches st) →
    batches st !! k = Some batch →
    Batch.status batch = pending →
    createFinalizeBatchSchema batch data = Success r →
    ∃ st' b',
      FinalizeBatchModal_handleSubmit batch data st = Normal st'
      ∧ batches st' !! k = Some b'
      ∧ Batch.id b' = Batch.id batch
      ∧ Batch.deliveryPersonId b' = Batch.deliveryPersonId batch
      ∧ Batch.pgfnInitial b' = Batch.pgfnInitial batch
      ∧ Batch.normalInitial b' = Batch.normalInitial batch
      ∧ Batch.departureDatetime b' = Batch.departureDatetime batch
      ∧ Batch.estimatedReturnDate b' = Batch.estimatedReturnDate batch
      ∧ Batch.description b' = Batch.description batch
      ∧ Batch.status b' = finalized
      ∧ Batch.returnDatetime b' = ff_returnDatetime data
      ∧ stored_counts b' = Some (ff_counts data)
      ∧ (∀ j, j ≠ k → batches st' !! j = batches st !! j)
      ∧ length (batches st') = length (batches st)
      ∧ deliveryPeople st' = deliveryPeople st.
Proof.
  intros st k batch data r Hnd Hk Hs E.
  unfold FinalizeBatchModal_handleSubmit, updateBatch. rewrite E.
  apply createFinalizeBatchSchema_Success in E as (Hret & -> & _).
  eexists _, _. split; [done |]. rewrite batches_setBatches.
  split; [by apply replace_lookup_self with batch |].
  do 8 (split; [done |]). split; [by rewrite Hret |].
  split; [apply stored_counts_finalized |].
  split; [| split; [by rewrite length_fmap | done]].
  intros j Hj. by apply replace_lookup_elsewhere with k batch.
Qed.

Lemma finalize_frame_witness :
  ∃ st' b',
    FinalizeBatchModal_handleSubmit sample_pending sample_form
      (mkState [sample_stray; sample_pending] [sample_person] ∅) = Normal st'
    ∧ batches st' !! 1%nat = Some b'
    ∧ Batch.id b' = Batch.id sample_pending
    ∧ Batch.deliveryPersonId b' = Batch.deliveryPersonId sample_pending
    ∧ Batch.pgfnInitial b' = Batch.pgfnInitial sample_pending
    ∧ Batch.normalInitial b' = Batch.normalInitial sample_pending
    ∧ Batch.departureDatetime b' = Batch.departureDatetime sample_pending
    ∧ Batch.estimatedReturnDate b' = Batch.estimatedReturnDate sample_pending
    ∧ Batch.description b' = Batch.description sample_pending
    ∧ Batch.status b' = finalized
    ∧ Batch.returnDatetime b' = ff_returnDatetime sample_form
    ∧ stored_counts b' = Some (ff_counts sample_form)
    ∧ (∀ j, j ≠ 1%nat →
            batches st' !! j = [sample_stray; sample_pending] !! j)
    ∧ length (batches st') = length [sample_stray; sample_pending]
    ∧ deliveryPeople st' = [sample_person].
Proof.
  apply (finalize_frame (mkState [sample_stray; sample_pending] [sample_person] ∅)
           1%nat sample_pending sample_form (mkFinalizeData 5000 sample_counts)).
  - simpl. apply NoDup_cons. split; [| apply NoDup_singleton].
    by intros [? | ?%elem_of_nil]%elem_of_cons.
  - reflexivity.
  - reflexivity.
  - reflexivity.
Defined.

(** * Further properties of the engine *)

#[local] Set Warnings "-clear-no-such-hyp".

(** ** The new-batch form *)

Lemma min1_nil key s : min1 key s = [] ↔ s ≠ "".
Proof. unfold min1. case_decide; split; done. Qed.

Lemma min1_date_nil key v : min1_date key v = [] ↔ is_Some v.
Proof. destruct v; simpl; split; first [done | by eexists | by intros [? ?]]. Qed.

Lemma newBatch_refine_nil data :
  newBatch_refine data = [] ↔ 0 < nb_pgfnInitial data ∨ 0 < nb_normalInitial data.
Proof.
  unfold newBatch_refine.
  destruct (Z.ltb_spec 0 (nb_pgfnInitial data)), (Z.ltb_spec 0 (nb_normalInitial data));
    simpl; split; try done; auto; lia.
Qed.

(** X1.  The new-batch form is accepted exactly when a delivery person
    is selected, both initial counts are non-negative, one of them is
    positive and both dates are filled in. *)
Theorem newBatchSchema_accepts_iff :
  ∀ data,
    (∃ d, newBatchSchema data = Success d)
    ↔ nb_deliveryPersonId data ≠ ""
      ∧ 0 ≤ nb_pgfnInitial data ∧ 0 ≤ nb_normalInitial data
      ∧ (0 < nb_pgfnInitial data ∨ 0 < nb_normalInitial data)
      ∧ is_Some (nb_departureDatetime data)
      ∧ is_Some (nb_estimatedReturnDate data).
Proof.
  intros data.
  rewrite <- (min1_nil "deliveryPersonId"), <- (min0_nil "pgfnInitial"),
    <- (min0_nil "normalInitial"), <- newBatch_refine_nil,
    <- (min1_date_nil "departureDatetime"), <- (min1_date_nil "estimatedReturnDate").
  unfold newBatchSchema, newBatch_object.
  destruct (min1 "deliveryPersonId" (nb_deliveryPersonId data)); simpl;
    [| split; [by intros [? ?] | by intros (? & _)]].
  destruct (min0 "pgfnInitial" (nb_pgfnInitial data)); simpl;
    [| split; [by intros [? ?] | by intros (_ & ? & _)]].
  destruct (min0 "normalInitial" (nb_normalInitial data)); simpl;
    [| split; [by intros [? ?] | by intros (_ & _ & ? & _)]].
  destruct (nb_departureDatetime data) as [dep |]; simpl;
    [| split; [by intros [? ?] | by intros (_ & _ & _ & _ & ? & _)]].
  destruct (nb_estimatedReturnDate data) as [est |]; simpl;
    [| split; [by intros [? ?] | by intros (_ & _ & _ & _ & _ & ?)]].
  destruct (newBatch_refine data); simpl.
  - split; [done | intros _; by eexists].
  - split; [by intros [? ?] | by intros (_ & _ & _ & ? & _)].
Qed.

(** X2.  An accepted new-batch form puts one new batch in front of the
    list: it is pending, carries the form's values and the id drawn from
    the clock, and has none of the six counts, no value and no return
    instant; the
    batches already stored follow unchanged, and neither the people nor
    the field errors change. *)
Theorem NewBatchModal_adds_pending_batch :
  ∀ data now st d,
    newBatchSchema data = Success d →
    ∃ b,
      NewBatchModal_handleSubmit data now st
      = Normal {| batches := b :: batches st;
                  deliveryPeople := deliveryPeople st;
                  errors := errors st |}
      ∧ Batch.id b = pretty now
      ∧ Batch.status b = pending
      ∧ Batch.deliveryPersonId b = nb_deliveryPersonId data
      ∧ Batch.pgfnInitial b = nb_pgfnInitial data
      ∧ Batch.normalInitial b = nb_normalInitial data
      ∧ Some (Batch.departureDatetime b) = nb_departureDatetime data
      ∧ Some (Batch.estimatedReturnDate b) = nb_estimatedReturnDate data
      ∧ Batch.description b = nb_description data
      ∧ Batch.pgfnDelivered b = None
      ∧ Batch.pgfnReturned b = None
      ∧ Batch.pgfnAbsent b = None
      ∧ Batch.normalDelivered b = None
      ∧ Batch.normalReturned b = None
      ∧ Batch.normalAbsent b = None
      ∧ Batch.totalValue b = None
      ∧ Batch.returnDatetime b = None.
Proof.
  intros data now st d E. unfold NewBatchModal_handleSubmit, addBatch. rewrite E.
  eexists. split; [reflexivity |].
  unfold newBatchSchema in E.
  destruct (newBatch_object data ++ newBatch_refine data);
    destruct (nb_departureDatetime data), (nb_estimatedReturnDate data); try done.
  by injection E as <-.
Qed.

Lemma NewBatchModal_adds_pending_batch_witness :
  ∃ b,
    NewBatchModal_handleSubmit sample_new 1 initial
    = Normal {| batches := b :: batches initial;
                deliveryPeople := deliveryPeople initial;
                errors := errors initial |}
    ∧ Batch.id b = pretty 1
    ∧ Batch.status b = pending
    ∧ Batch.deliveryPersonId b = nb_deliveryPersonId sample_new
    ∧ Batch.pgfnInitial b = nb_pgfnInitial sample_new
    ∧ Batch.normalInitial b = nb_normalInitial sample_new
    ∧ Some (Batch.departureDatetime b) = nb_departureDatetime sample_new
    ∧ Some (Batch.estimatedReturnDate b) = nb_estimatedReturnDate sample_new
    ∧ Batch.description b = nb_description sample_new
    ∧ Batch.pgfnDelivered b = None
    ∧ Batch.pgfnReturned b = None
    ∧ Batch.pgfnAbsent b = None
    ∧ Batch.normalDelivered b = None
    ∧ Batch.normalReturned b = None
    ∧ Batch.normalAbsent b = None
    ∧ Batch.totalValue b = None
    ∧ Batch.returnDatetime b = None.
Proof.
  apply (NewBatchModal_adds_pending_batch sample_new 1 initial
           (mkNewBatchData "C1" 10 0 1000 2000 "")).
  reflexivity.
Defined.

(** ** The field errors of a rejected finalize *)

Lemma elem_of_min0 k key n : k ∈ min0 key n ↔ k = key ∧ n < 0.
Proof.
  unfold min0. destruct (Z.ltb_spec n 0).
  - rewrite list_elem_of_singleton. tauto.
  - rewrite elem_of_nil. lia.
Qed.

Lemma elem_of_min1_date k key (v : option Z) : k ∈ min1_date key v ↔ k = key ∧ v = None.
Proof.
  destruct v; simpl.
  - rewrite elem_of_nil. split; [done | by intros [_ ?]].
  - rewrite list_elem_of_singleton. tauto.
Qed.

Lemma elem_of_conservation_issues k batch c :
  k ∈ conservation_issues batch c
  ↔ (k = "pgfn"
     ∧ c_pgfnDelivered c + c_pgfnReturned c + c_pgfnAbsent c ≠ Batch.pgfnInitial batch)
    ∨ (k = "normal"
       ∧ c_normalDelivered c + c_normalReturned c + c_normalAbsent c
         ≠ Batch.normalInitial batch).
Proof.
  unfold conservation_issues. rewrite elem_of_app.
  repeat case_decide; rewrite ?list_elem_of_singleton, ?elem_of_nil; tauto.
Qed.

Lemma createFinalizeBatchSchema_Failure batch data issues :
  createFinalizeBatchSchema batch data = Failure issues →
  issues = min1_date "returnDatetime" (ff_returnDatetime data)
           ++ counts_object (ff_counts data)
           ++ conservation_issues batch (ff_counts data)
  ∧ issues ≠ [].
Proof.
  unfold createFinalizeBatchSchema.
  destruct (min1_date "returnDatetime" (ff_returnDatetime data)
            ++ counts_object (ff_counts data)
            ++ conservation_issues batch (ff_counts data)) as [| i l] eqn:E.
  - destruct (ff_returnDatetime data); [done |]. by simpl in E.
  - destruct (ff_returnDatetime data); by intros [= <-].
Qed.

Lemma elem_of_finalize_issues k batch data :
  k ∈ min1_date "returnDatetime" (ff_returnDatetime data)
      ++ counts_object (ff_counts data)
      ++ conservation_issues batch (ff_counts data)
  ↔ (k = "returnDatetime" ∧ ff_returnDatetime data = None)
    ∨ (k = "pgfnDelivered" ∧ c_pgfnDelivered (ff_counts data) < 0)
    ∨ (k = "pgfnReturned" ∧ c_pgfnReturned (ff_counts data) < 0)
    ∨ (k = "pgfnAbsent" ∧ c_pgfnAbsent (ff_counts data) < 0)
    ∨ (k = "normalDelivered" ∧ c_normalDelivered (ff_counts data) < 0)
    ∨ (k = "normalReturned" ∧ c_normalReturned (ff_counts data) < 0)
    ∨ (k = "normalAbsent" ∧ c_normalAbsent (ff_counts data) < 0)
    ∨ (k = "pgfn"
       ∧ c_pgfnDelivered (ff_counts data) + c_pgfnReturned (ff_counts data)
         + c_pgfnAbsent (ff_counts data) ≠ Batch.pgfnInitial batch)
    ∨ (k = "normal"
       ∧ c_normalDelivered (ff_counts data) + c_normalReturned (ff_counts data)
         + c_normalAbsent (ff_counts data) ≠ Batch.normalInitial batch).
Proof.
  unfold counts_object.
  rewrite !elem_of_app, !elem_of_min0, elem_of_min1_date, elem_of_conservation_issues.
  tauto.
Qed.

(** X3.  When the finalize form is rejected the store is untouched and
    the recorded error keys name the broken rules one by one:
    [returnDatetime] when the return instant is empty, the name of a
    count when that count is negative, [pgfn] when the PGFN counts do not
    add up to [pgfnInitial] and [normal] when the normal counts do not
    add up to [normalInitial]; at least one key is recorded. *)
Theorem FinalizeBatchModal_error_keys :
  ∀ batch data st issues,
    createFinalizeBatchSchema batch data = Failure issues →
    ∃ st',
      FinalizeBatchModal_handleSubmit batch data st = Normal st'
      ∧ batches st' = batches st
      ∧ errors st' ≠ ∅
      ∧ ("returnDatetime" ∈ errors st' ↔ ff_returnDatetime data = None)
      ∧ ("pgfnDelivered" ∈ errors st' ↔ c_pgfnDelivered (ff_counts data) < 0)
      ∧ ("pgfnReturned" ∈ errors st' ↔ c_pgfnReturned (ff_counts data) < 0)
      ∧ ("pgfnAbsent" ∈ errors st' ↔ c_pgfnAbsent (ff_counts data) < 0)
      ∧ ("normalDelivered" ∈ errors st' ↔ c_normalDelivered (ff_counts data) < 0)
      ∧ ("normalReturned" ∈ errors st' ↔ c_normalReturned (ff_counts data) < 0)
      ∧ ("normalAbsent" ∈ errors st' ↔ c_normalAbsent (ff_counts data) < 0)
      ∧ ("pgfn" ∈ errors st'
         ↔ c_pgfnDelivered (ff_counts data) + c_pgfnReturned (ff_counts data)
           + c_pgfnAbsent (ff_counts data) ≠ Batch.pgfnInitial batch)
      ∧ ("normal" ∈ errors st'
         ↔ c_normalDelivered (ff_counts data) + c_normalReturned (ff_counts data)
           + c_normalAbsent (ff_counts data) ≠ Batch.normalInitial batch).
Proof.
  intros batch data st issues E.
  unfold FinalizeBatchModal_handleSubmit. rewrite E.
  apply createFinalizeBatchSchema_Failure in E as [-> Hne].
  eexists. split; [reflexivity |]. split; [reflexivity |].
  unfold setErrors, getZodFieldErrors. cbn [errors].
  split.
  - intros Hempty. apply Hne.
    destruct (_ ++ _) as [| i l] eqn:El; [done |].
    exfalso. apply (not_elem_of_empty (C := gset string) i).
    rewrite <- Hempty. apply elem_of_list_to_set. apply list_elem_of_here.
  - repeat split; rewrite elem_of_list_to_set, elem_of_finalize_issues;
      naive_solver.
Qed.

Lemma FinalizeBatchModal_error_keys_witness :
  ∃ st',
    FinalizeBatchModal_handleSubmit sample_pending
      (mkFinalizeForm None (mkCounts 7 2 2 (-1) 0 0)) sample_open = Normal st'
    ∧ batches st' = batches sample_open
    ∧ errors st' ≠ ∅
    ∧ ("returnDatetime" ∈ errors st' ↔ (None : option Z) = None)
    ∧ ("pgfnDelivered" ∈ errors st' ↔ 7 < 0)
    ∧ ("pgfnReturned" ∈ errors st' ↔ 2 < 0)
    ∧ ("pgfnAbsent" ∈ errors st' ↔ 2 < 0)
    ∧ ("normalDelivered" ∈ errors st' ↔ -1 < 0)
    ∧ ("normalReturned" ∈ errors st' ↔ 0 < 0)
    ∧ ("normalAbsent" ∈ errors st' ↔ 0 < 0)
    ∧ ("pgfn" ∈ errors st' ↔ 7 + 2 + 2 ≠ Batch.pgfnInitial sample_pending)
    ∧ ("normal" ∈ errors st' ↔ -1 + 0 + 0 ≠ Batch.normalInitial sample_pending).
Proof.
  apply (FinalizeBatchModal_error_keys sample_pending
           (mkFinalizeForm None (mkCounts 7 2 2 (-1) 0 0)) sample_open
           ["returnDatetime"; "normalDelivered"; "pgfn"; "normal"]).
  reflexivity.
Defined.

(** ** The roster *)

Lemma deliveryPersonSchema_accepts data :
  pf_name data ≠ "" → deliveryPersonSchema data = Success data.
Proof. intros Hn. unfold deliveryPersonSchema, min1. by rewrite decide_False. Qed.

Lemma deliveryPersonSchema_rejects data :
  pf_name data = "" → deliveryPersonSchema data = Failure ["name"].
Proof. intros Hn. unfold deliveryPersonSchema, min1. by rewrite decide_True. Qed.

(** X4.  The add-person form with an empty name only records an error
    under [name]; with a name it clears the field errors and the roster
    becomes a rearrangement of the old roster and the new person, who
    carries the id drawn from the clock.  The batches are untouched
    either way. *)
Theorem AddDeliveryPersonView_adds_or_rejects :
  ∀ localeCompare data now st,
    (pf_name data = "" →
     ∃ st',
       AddDeliveryPersonView_handleSubmit localeCompare data now st = Normal st'
       ∧ "name" ∈ errors st'
       ∧ deliveryPeople st' = deliveryPeople st ∧ batches st' = batches st)
    ∧ (pf_name data ≠ "" →
       ∃ st',
         AddDeliveryPersonView_handleSubmit localeCompare data now st = Normal st'
         ∧ errors st' = ∅
         ∧ deliveryPeople st' ≡ₚ person_of_form (pretty now) data :: deliveryPeople st
         ∧ batches st' = batches st).
Proof.
  intros lc data now st. split; intros Hn.
  - unfold AddDeliveryPersonView_handleSubmit.
    rewrite (deliveryPersonSchema_rejects _ Hn).
    eexists. split; [reflexivity |]. split; [| done].
    simpl. unfold getZodFieldErrors. apply elem_of_list_to_set, list_elem_of_here.
  - unfold AddDeliveryPersonView_handleSubmit, addDeliveryPerson.
    rewrite (deliveryPersonSchema_accepts _ Hn).
    eexists. split; [reflexivity |]. split; [done |]. split; [| done].
    simpl. rewrite Array_sort_perm. by rewrite Permutation_app_comm.
Qed.

Lemma AddDeliveryPersonView_adds_or_rejects_witness :
  (∃ st',
      AddDeliveryPersonView_handleSubmit sample_by_length
        (mkPersonForm "" "" "" "" "" "" "") 3 sample_roster = Normal st'
      ∧ "name" ∈ errors st'
      ∧ deliveryPeople st' = deliveryPeople sample_roster
      ∧ batches st' = batches sample_roster)
  ∧ (∃ st',
        AddDeliveryPersonView_handleSubmit sample_by_length sample_ana 2
          (mkState [] [person_of_form "1" sample_carla] ∅) = Normal st'
        ∧ errors st' = ∅
        ∧ deliveryPeople st'
          ≡ₚ person_of_form (pretty 2) sample_ana :: [person_of_form "1" sample_carla]
        ∧ batches st' = []).
Proof.
  split.
  - apply (AddDeliveryPersonView_adds_or_rejects sample_by_length
             (mkPersonForm "" "" "" "" "" "" "") 3 sample_roster). reflexivity.
  - apply (AddDeliveryPersonView_adds_or_rejects sample_by_length sample_ana 2
             (mkState [] [person_of_form "1" sample_carla] ∅)). discriminate.
Defined.

(** *** The roster stays in name order *)

Lemma sort_insert_HdRel_gen {A} (compareFn : A → A → Z) y x l :
  ascending compareFn y x → HdRel (ascending compareFn) y l →
  HdRel (ascending compareFn) y (sort_insert compareFn x l).
Proof.
  intros Hyx Hl. destruct l as [| z l]; simpl; [by constructor |].
  case_match; constructor; [by inversion Hl | done].
Qed.

Lemma Array_sort_Sorted {A} (compareFn : A → A → Z) l :
  (∀ x y, 0 < compareFn x y → compareFn y x ≤ 0) →
  Sorted (ascending compareFn) (Array_sort compareFn l).
Proof.
  intros Hasym. induction l as [| x l IH]; simpl; [constructor |].
  induction IH as [| y l' Hl' IH' Hy]; simpl; [by repeat constructor |].
  destruct (Z.ltb_spec 0 (compareFn x y)) as [Hlt | Hle].
  - constructor; [done |]. apply sort_insert_HdRel_gen; [| done]. by apply Hasym.
  - constructor; [by constructor |]. by constructor.
Qed.

Lemma Array_sort_StronglySorted {A} (compareFn : A → A → Z) l :
  consistent compareFn → StronglySorted (ascending compareFn) (Array_sort compareFn l).
Proof.
  intros [Hasym Htrans]. apply Sorted_StronglySorted.
  - intros x y z. apply Htrans.
  - by apply Array_sort_Sorted.
Qed.

Lemma StronglySorted_filter {A} (R : relation A) (P : A → Prop)
    `{∀ x, Decision (P x)} l :
  StronglySorted R l → StronglySorted R (filter P l).
Proof.
  induction 1 as [| x l Hl IH Hx]; [constructor |].
  rewrite filter_cons. case_decide; [| done].
  constructor; [done |]. by apply Forall_filter_keep.
Qed.

Lemma consistent_byName localeCompare :
  consistent localeCompare → consistent (byName localeCompare).
Proof.
  intros [Hasym Htrans]. split.
  - intros x y. apply Hasym.
  - intros x y z. apply Htrans.
Qed.

Lemma run_batch_action_people omit localeCompare a st st' :
  match a with
  | SubmitNewBatch _ _ | SubmitFinalize _ _ | SubmitEdit _ _ | ConfirmDeleteBatch _ => True
  | _ => False
  end →
  run omit localeCompare a st = Normal st' → deliveryPeople st' = deliveryPeople st.
Proof.
  destruct a as [| | | data now | batch data | batch data | batchId]; try done;
    intros _; simpl.
  - unfold NewBatchModal_handleSubmit. destruct (newBatchSchema data); by intros [= <-].
  - unfold FinalizeBatchModal_handleSubmit.
    destruct (createFinalizeBatchSchema batch data); by intros [= <-].
  - unfold EditBatchModal_handleSubmit. destruct omit; [done |]. simpl.
    destruct (countsSchema data); by intros [= <-].
  - by intros [= <-].
Qed.

(** X5.  If [localeCompare] is a consistent ordering, the people of
    every reachable state are in ascending name order: adding and editing
    re-sort the roster and deleting keeps the order of the rest. *)
Theorem roster_in_name_order :
  ∀ omit localeCompare st,
    consistent localeCompare →
    reachable omit localeCompare st →
    StronglySorted (ascending (byName localeCompare)) (deliveryPeople st).
Proof.
  intros omit lc st Hc. apply consistent_byName in Hc.
  unfold reachable. revert st. apply rtc_ind_r; [constructor |].
  intros st st' _ (a & Hen & Hrun) IH.
  destruct a as [data now | person data | personId | data now | batch data
                | batch data | batchId];
    try (apply run_batch_action_people in Hrun; [by rewrite Hrun | done]).
  - simpl in Hrun. unfold AddDeliveryPersonView_handleSubmit, addDeliveryPerson in Hrun.
    destruct (deliveryPersonSchema data); injection Hrun as <-; [| done].
    simpl. by apply Array_sort_StronglySorted.
  - simpl in Hrun.
    unfold EditDeliveryPersonModal_handleSubmit, updateDeliveryPerson in Hrun.
    destruct (deliveryPersonSchema data); injection Hrun as <-; [| done].
    simpl. by apply Array_sort_StronglySorted.
  - injection Hrun as <-. simpl. by apply StronglySorted_filter.
Qed.

Lemma sample_by_length_consistent : consistent sample_by_length.
Proof. unfold consistent, sample_by_length. split; intros; lia. Qed.

Lemma sample_roster_reachable omit : reachable omit sample_by_length sample_roster.
Proof.
  eapply rtc_r; [eapply rtc_r; [apply rtc_refl |] |].
  - exists (SubmitNewPerson sample_carla 1). split; [| reflexivity].
    simpl. apply not_elem_of_nil.
  - exists (SubmitNewPerson sample_ana 2). split; [| reflexivity].
    simpl. by intros [? | ?%elem_of_nil]%elem_of_cons.
Qed.

Lemma roster_in_name_order_witness :
  StronglySorted (ascending (byName sample_by_length)) (deliveryPeople sample_roster).
Proof.
  apply (roster_in_name_order (OmitThrows "TypeError") sample_by_length sample_roster).
  - apply sample_by_length_consistent.
  - apply sample_roster_reachable.
Defined.

(** X6.  A successful edit of a person of the roster replaces every
    field but the id: the ids of the roster are the same as before, up
    to order, the edited record is in the roster, and the batches, which
    refer to the person by id, are untouched.  An empty name is rejected
    under [name] and changes nothing. *)
Theorem EditDeliveryPersonModal_keeps_ids :
  ∀ localeCompare person data st,
    person ∈ deliveryPeople st →
    (pf_name data = "" →
     ∃ st',
       EditDeliveryPersonModal_handleSubmit localeCompare person data st = Normal st'
       ∧ "name" ∈ errors st'
       ∧ deliveryPeople st' = deliveryPeople st ∧ batches st' = batches st)
    ∧ (pf_name data ≠ "" →
       ∃ st',
         EditDeliveryPersonModal_handleSubmit localeCompare person data st = Normal st'
         ∧ DeliveryPerson.id <$> deliveryPeople st'
           ≡ₚ DeliveryPerson.id <$> deliveryPeople st
         ∧ person_of_form (DeliveryPerson.id person) data ∈ deliveryPeople st'
         ∧ batches st' = batches st).
Proof.
  intros lc person data st Hin. split; intros Hn.
  - unfold EditDeliveryPersonModal_handleSubmit.
    rewrite (deliveryPersonSchema_rejects _ Hn).
    eexists. split; [reflexivity |]. split; [| done].
    simpl. unfold getZodFieldErrors. apply elem_of_list_to_set, list_elem_of_here.
  - unfold EditDeliveryPersonModal_handleSubmit, updateDeliveryPerson.
    rewrite (deliveryPersonSchema_accepts _ Hn).
    eexists. split; [reflexivity |]. simpl. split; [| split; [| done]].
    + rewrite Array_sort_perm, <- list_fmap_compose.
      erewrite list_fmap_ext; [reflexivity |].
      intros i p _. simpl. by case_decide.
    + rewrite Array_sort_perm. apply list_elem_of_fmap.
      exists person. split; [| done]. by rewrite decide_True.
Qed.

Lemma EditDeliveryPersonModal_keeps_ids_witness :
  (pf_name sample_ana = "" →
   ∃ st',
     EditDeliveryPersonModal_handleSubmit sample_by_length
       (person_of_form "1" sample_carla) sample_ana sample_roster = Normal st'
     ∧ "name" ∈ errors st'
     ∧ deliveryPeople st' = deliveryPeople sample_roster
     ∧ batches st' = batches sample_roster)
  ∧ (pf_name sample_ana ≠ "" →
     ∃ st',
       EditDeliveryPersonModal_handleSubmit sample_by_length
         (person_of_form "1" sample_carla) sample_ana sample_roster = Normal st'
       ∧ DeliveryPerson.id <$> deliveryPeople st'
         ≡ₚ DeliveryPerson.id <$> deliveryPeople sample_roster
       ∧ person_of_form (DeliveryPerson.id (person_of_form "1" sample_carla)) sample_ana
         ∈ deliveryPeople st'
       ∧ batches st' = batches sample_roster).
Proof.
  apply (EditDeliveryPersonModal_keeps_ids sample_by_length
           (person_of_form "1" sample_carla) sample_ana sample_roster).
  simpl. apply list_elem_of_further, list_elem_of_here.
Defined.

(** ** Adding, replacing and deleting batches *)

(** X7.  [deleteBatch] removes the batches that carry the id and no
    others: what remains is the old list without them, in the old order,
    and the people are untouched.  When the ids of the store are distinct
    and the id is present, the list gets shorter by exactly one. *)
Theorem deleteBatch_removes_exactly :
  ∀ batchId st,
    ∃ st',
      deleteBatch batchId st = Normal st'
      ∧ (∀ b, b ∈ batches st' ↔ b ∈ batches st ∧ Batch.id b ≠ batchId)
      ∧ (batches st' `sublist_of` batches st)
      ∧ deliveryPeople st' = deliveryPeople st
      ∧ (NoDup (Batch.id <$> batches st) →
         batchId ∈ Batch.id <$> batches st →
         S (length (batches st')) = length (batches st)).
Proof.
  intros i st. eexists. split; [reflexivity |]. simpl.
  split; [| split; [apply sublist_filter | split; [done |]]].
  - intros b. rewrite list_elem_of_filter. tauto.
  - induction (batches st) as [| b l IH]; [by intros _ ?%elem_of_nil |].
    rewrite fmap_cons, NoDup_cons, elem_of_cons. intros [Hb Hnd] Hin.
    rewrite filter_cons. case_decide as Hid.
    + destruct Hin as [-> | Hin]; [done |]. simpl. f_equal. by apply IH.
    + subst i. simpl. f_equal. by rewrite filter_absent.
Qed.

Lemma deleteBatch_removes_exactly_witness :
  ∃ st',
    deleteBatch "1" (mkState [sample_stray; sample_pending] [sample_person] ∅) = Normal st'
    ∧ (∀ b, b ∈ batches st' ↔ b ∈ [sample_stray; sample_pending] ∧ Batch.id b ≠ "1")
    ∧ (batches st' `sublist_of` [sample_stray; sample_pending])
    ∧ deliveryPeople st' = [sample_person]
    ∧ (NoDup (Batch.id <$> [sample_stray; sample_pending]) →
       "1" ∈ Batch.id <$> [sample_stray; sample_pending] →
       S (length (batches st')) = length [sample_stray; sample_pending]).
Proof.
  exact (deleteBatch_removes_exactly "1"
           (mkState [sample_stray; sample_pending] [sample_person] ∅)).
Defined.

(** X8.  Adding a batch under an id that is not in the store and then
    deleting that id gives back the state before the add. *)
Theorem addBatch_then_deleteBatch :
  ∀ batch now st,
    pretty now ∉ Batch.id <$> batches st →
    ∃ st1,
      addBatch batch now st = Normal st1
      ∧ deleteBatch (pretty now) st1 = Normal st.
Proof.
  intros batch now st Hfresh. eexists. split; [reflexivity |].
  unfold deleteBatch. f_equal. destruct st as [bs ps es].
  unfold setBatches. simpl in *. f_equal.
  rewrite filter_cons_False by (simpl; by intros ?).
  by apply filter_absent.
Qed.

Lemma addBatch_then_deleteBatch_witness :
  ∃ st1,
    addBatch sample_stray 7 sample_open = Normal st1
    ∧ deleteBatch (pretty 7) st1 = Normal sample_open.
Proof.
  apply (addBatch_then_deleteBatch sample_stray 7 sample_open).
  simpl. by intros [? | ?%elem_of_nil]%elem_of_cons.
Defined.

(** X9.  [updateBatch] keeps the ids of the list, position by position,
    and hence its length; applying the same update a second time changes
    nothing more. *)
Theorem updateBatch_idempotent :
  ∀ updatedBatch st,
    ∃ st1,
      updateBatch updatedBatch st = Normal st1
      ∧ Batch.id <$> batches st1 = Batch.id <$> batches st
      ∧ length (batches st1) = length (batches st)
      ∧ deliveryPeople st1 = deliveryPeople st
      ∧ updateBatch updatedBatch st1 = Normal st1.
Proof.
  intros u st. eexists. split; [reflexivity |].
  rewrite batches_setBatches.
  split; [by apply replace_ids |]. split; [by rewrite length_fmap |]. split; [done |].
  unfold updateBatch. f_equal. apply setBatches_same.
  rewrite batches_setBatches, <- list_fmap_compose.
  apply list_fmap_ext. intros i b _. simpl.
  destruct (decide (Batch.id b = Batch.id u)); [by rewrite decide_True |].
  by rewrite decide_False.
Qed.

(** ** The two lists of the partition *)

(** X10.  The Active and the Archived list together hold every batch of
    the store exactly as often as the store does, and no batch is in
    both. *)
Theorem partition_is_a_split :
  ∀ now l,
    dashboardBatches now l ++ archivedBatches now l ≡ₚ l
    ∧ (length (dashboardBatches now l) + length (archivedBatches now l))%nat = length l
    ∧ ∀ b, b ∈ dashboardBatches now l → b ∉ archivedBatches now l.
Proof.
  intros now l.
  assert (Hperm : dashboardBatches now l ++ archivedBatches now l ≡ₚ l).
  { unfold dashboardBatches, archivedBatches. rewrite partitionBatches_spec. simpl.
    rewrite !Array_sort_perm, Permutation_app_comm. apply filter_app_complement. }
  split; [done |]. split.
  - by rewrite <- length_app, Hperm.
  - intros b [_ Hn]%elem_of_dashboardBatches [_ Ha]%elem_of_archivedBatches. by apply Hn.
Qed.

(** X11.  Each of the two lists is ordered by departure, latest first. *)
Theorem partition_lists_latest_first :
  ∀ now l,
    Sorted later_first (dashboardBatches now l)
    ∧ Sorted later_first (archivedBatches now l).
Proof.
  intros now l. unfold dashboardBatches, archivedBatches.
  rewrite partitionBatches_spec. simpl. split; apply Array_sort_sortFn_Sorted.
Qed.

(** X12.  Archival only goes one way with time: a batch listed under
    Archived at one instant is listed there at every later instant, and a
    batch listed under Active at an instant was Active at every earlier
    one, for the same store. *)
Theorem archival_is_monotone :
  ∀ now now' l b,
    now ≤ now' →
    (b ∈ archivedBatches now l → b ∈ archivedBatches now' l)
    ∧ (b ∈ dashboardBatches now' l → b ∈ dashboardBatches now l).
Proof.
  intros now now' l b Hle.
  assert (Hmono : archived_at now b → archived_at now' b).
  { intros (Hs & ret & Hr & Hlt). split; [done |]. exists ret. split; [done | lia]. }
  rewrite !elem_of_archivedBatches, !elem_of_dashboardBatches. tauto.
Qed.

Lemma archival_is_monotone_witness :
  (sample_finalized ∈ archivedBatches 400000000 [sample_finalized] →
   sample_finalized ∈ archivedBatches 500000000 [sample_finalized])
  ∧ (sample_finalized ∈ dashboardBatches 500000000 [sample_finalized] →
     sample_finalized ∈ dashboardBatches 400000000 [sample_finalized]).
Proof.
  apply (archival_is_monotone 400000000 500000000 [sample_finalized] sample_finalized).
  lia.
Defined.

Lemma Array_sort_fixed {A} (compareFn : A → A → Z) l :
  Sorted (ascending compareFn) l → Array_sort compareFn l = l.
Proof.
  induction 1 as [| x l Hl IH Hx]; [done |]. simpl. rewrite IH.
  destruct Hx as [| y l' Hxy]; [done |]. simpl.
  unfold ascending in Hxy. destruct (Z.ltb_spec 0 (compareFn x y)); [lia | done].
Qed.

Lemma Sorted_weaken {A} (R R' : relation A) l :
  (∀ a b, R a b → R' a b) → Sorted R l → Sorted R' l.
Proof.
  intros HR. induction 1 as [| x l Hl IH Hx]; constructor; [done |].
  destruct Hx; constructor. by apply HR.
Qed.

(** X13.  The sort keeps the order the store already has: when the
    store lists its batches latest departure first, ties included, the
    Active list is the store without the archived batches and the
    Archived list is the archived batches, both in store order. *)
Theorem partition_keeps_store_order :
  ∀ now l,
    StronglySorted later_first l →
    dashboardBatches now l = filter (λ b, ¬ archived_at now b) l
    ∧ archivedBatches now l = filter (archived_at now) l.
Proof.
  intros now l Hl. unfold dashboardBatches, archivedBatches.
  rewrite partitionBatches_spec. simpl.
  assert (Hfix : ∀ k, StronglySorted later_first k → Array_sort sortFn k = k).
  { intros k Hk. apply Array_sort_fixed. apply StronglySorted_Sorted in Hk.
    apply (Sorted_weaken later_first); [| done].
    intros a b Hab. unfold ascending, sortFn. unfold later_first in Hab. lia. }
  split; apply Hfix; by apply StronglySorted_filter.
Qed.

Lemma partition_keeps_store_order_witness :
  dashboardBatches 6000 [sample_stray; sample_finalized]
  = filter (λ b, ¬ archived_at 6000 b) [sample_stray; sample_finalized]
  ∧ archivedBatches 6000 [sample_stray; sample_finalized]
    = filter (archived_at 6000) [sample_stray; sample_finalized].
Proof.
  apply (partition_keeps_store_order 6000 [sample_stray; sample_finalized]).
  repeat constructor. unfold later_first. simpl. lia.
Defined.

(** ** The filters of the two views *)

Lemma personFilterMatch_true person b :
  personFilterMatch person b = true ↔ person = "" ∨ Batch.deliveryPersonId b = person.
Proof.
  unfold personFilterMatch. rewrite orb_true_iff, !bool_decide_eq_true. tauto.
Qed.

Lemma statusFilterMatch_true status b :
  statusFilterMatch status b = true
  ↔ status = allStatuses ∨ status = onlyStatus (Batch.status b).
Proof.
  destruct status as [| s]; simpl.
  - split; [by left | done].
  - rewrite bool_decide_eq_true. split.
    + intros <-. by right.
    + by intros [? | [= ->]].
Qed.

(** X14.  The archive filter with no person selected shows the whole
    Archived list; with a person selected it shows exactly that person's
    archived batches.  It never reorders. *)
Theorem filteredArchivedBatches_by_person :
  ∀ person archived,
    (person = "" → filteredArchivedBatches person archived = archived)
    ∧ (person ≠ "" →
       ∀ b, b ∈ filteredArchivedBatches person archived
            ↔ b ∈ archived ∧ Batch.deliveryPersonId b = person)
    ∧ (filteredArchivedBatches person archived `sublist_of` archived).
Proof.
  intros person archived. unfold filteredArchivedBatches.
  split; [| split; [| apply sublist_filter]].
  - intros ->. induction archived as [| b l IH]; [done |].
    rewrite filter_cons_True by done. by rewrite IH.
  - intros Hne b. rewrite list_elem_of_filter, personFilterMatch_true. tauto.
Qed.

Lemma filteredArchivedBatches_by_person_witness :
  (("" : string) = "" →
   filteredArchivedBatches "" [sample_finalized] = [sample_finalized])
  ∧ ("C1" ≠ "" →
     ∀ b, b ∈ filteredArchivedBatches "C1" [sample_finalized; sample_stray]
          ↔ b ∈ [sample_finalized; sample_stray] ∧ Batch.deliveryPersonId b = "C1").
Proof.
  split.
  - apply (filteredArchivedBatches_by_person "" [sample_finalized]).
  - apply (filteredArchivedBatches_by_person "C1" [sample_finalized; sample_stray]).
Defined.

(** X15.  A batch passes the dashboard filter exactly when it is on the
    dashboard, matches the search term, has the selected status unless
    the status filter is 'all', and belongs to the selected person
    unless none is selected.  With no search term, status 'all' and no
    person the filter shows the whole dashboard; it never reorders. *)
Theorem filteredDashboardBatches_characterised :
  ∀ toLowerCase filters people dashboard,
    (∀ b, b ∈ filteredDashboardBatches toLowerCase filters people dashboard
          ↔ b ∈ dashboard
            ∧ searchTermMatch toLowerCase (df_search filters) people b = true
            ∧ (df_status filters = allStatuses
               ∨ df_status filters = onlyStatus (Batch.status b))
            ∧ (df_person filters = "" ∨ Batch.deliveryPersonId b = df_person filters))
    ∧ (filteredDashboardBatches toLowerCase filters people dashboard
       `sublist_of` dashboard)
    ∧ filteredDashboardBatches toLowerCase (mkDashboardFilters allStatuses "" "")
        people dashboard = dashboard.
Proof.
  intros tl filters people dashboard. unfold filteredDashboardBatches.
  split; [| split; [apply sublist_filter |]].
  - intros b. rewrite list_elem_of_filter, !andb_true_iff,
      statusFilterMatch_true, personFilterMatch_true. tauto.
  - induction dashboard as [| b l IH]; [done |].
    rewrite filter_cons_True by done. by rewrite IH.
Qed.

Lemma prefix_refl s : String.prefix s s = true.
Proof.
  induction s as [| c s IH]; [done |]. simpl.
  destruct (Ascii.ascii_dec c c); [done | congruence].
Qed.

Lemma includes_refl s : includes s s = true.
Proof.
  unfold includes. destruct s as [| c s]; [done |].
  cbn [String.index]. by rewrite prefix_refl.
Qed.

(** X16.  Typing the full id of a dashboard batch into the search box,
    with the other filters open, always shows that batch, whether or not
    its delivery person is still on the roster. *)
Theorem search_by_id_finds_the_batch :
  ∀ toLowerCase people dashboard b,
    b ∈ dashboard →
    b ∈ filteredDashboardBatches toLowerCase
          (mkDashboardFilters allStatuses "" (Batch.id b)) people dashboard.
Proof.
  intros tl people dashboard b Hb. unfold filteredDashboardBatches.
  apply list_elem_of_filter. split; [| done]. simpl.
  rewrite !andb_true_r. unfold searchTermMatch. case_decide; [done |].
  by rewrite includes_refl.
Qed.

Lemma search_by_id_finds_the_batch_witness :
  sample_pending
  ∈ filteredDashboardBatches (λ s, s)
      (mkDashboardFilters allStatuses "" (Batch.id sample_pending)) []
      [sample_stray; sample_pending].
Proof.
  apply (search_by_id_finds_the_batch (λ s, s) [] [sample_stray; sample_pending]
           sample_pending).
  apply list_elem_of_further, list_elem_of_here.
Defined.

(** ** The status badge *)

(** X17.  The badge of a card reads FINALIZADO exactly for a finalized
    batch, ATRASADO exactly for a pending batch whose estimated return
    date lies before now, and PENDENTE exactly for a pending batch that
    is not yet due.  Every archived batch therefore reads FINALIZADO, and
    a finalized batch is never shown as overdue. *)
Theorem BatchCard_badge :
  ∀ batch now,
    (BatchCard_statusText batch now = "FINALIZADO" ↔ Batch.status batch = finalized)
    ∧ (BatchCard_statusText batch now = "ATRASADO"
       ↔ Batch.status batch = pending ∧ Batch.estimatedReturnDate batch < now)
    ∧ (BatchCard_statusText batch now = "PENDENTE"
       ↔ Batch.status batch = pending ∧ now ≤ Batch.estimatedReturnDate batch)
    ∧ (∀ l t, batch ∈ archivedBatches t l →
              BatchCard_statusText batch now = "FINALIZADO").
Proof.
  intros batch now. unfold BatchCard_statusText.
  assert (Hfin : ∀ l t, batch ∈ archivedBatches t l → Batch.status batch = finalized)
    by (by intros l t [_ [? _]]%elem_of_archivedBatches).
  destruct (Batch.status batch) eqn:Hs; simpl.
  - destruct (Z.ltb_spec (Batch.estimatedReturnDate batch) now);
      repeat split; try done; try (intros [_ ?]; lia); try lia.
    all: intros l t Ha; by specialize (Hfin l t Ha).
  - repeat split; try done; by intros [? _].
Qed.

(** ** The profile figures and the dashboard figures *)

Lemma foldl_add_Zsum (f g : Batch.t → Z) l a :
  foldl (λ s b, s + f b + g b) a l = a + Zsum (λ b, f b + g b) l.
Proof.
  revert a. induction l as [| b l IH]; intros a; simpl; [lia |].
  rewrite IH. lia.
Qed.

Lemma Zsum_perm f l l' : l ≡ₚ l' → Zsum f l = Zsum f l'.
Proof. induction 1; simpl; lia. Qed.

Lemma Zsum_app f l k : Zsum f (l ++ k) = Zsum f l + Zsum f k.
Proof. induction l as [| b l IH]; simpl; lia. Qed.

Lemma profile_filter_is_finalizedBatchesOf i l :
  filter (λ b, Batch.deliveryPersonId b = i ∧ Batch.status b = finalized) l
  = finalizedBatchesOf i l.
Proof. unfold finalizedBatchesOf, finalizedBatches. by rewrite list_filter_filter. Qed.

Lemma profile_stats_sums person l :
  ps_delivered (DeliveryPersonProfileView_stats person l)
  = Zsum batch_delivered (finalizedBatchesOf (DeliveryPerson.id person) l)
  ∧ ps_returned (DeliveryPersonProfileView_stats person l)
    = Zsum batch_returned (finalizedBatchesOf (DeliveryPerson.id person) l).
Proof.
  unfold DeliveryPersonProfileView_stats. cbn [ps_delivered ps_returned].
  rewrite profile_filter_is_finalizedBatchesOf. split.
  - by rewrite foldl_add_Zsum.
  - by rewrite foldl_add_Zsum.
Qed.

(** X18.  Over the same collection of reconciled batches the profile
    view and the dashboard agree on a person of the roster: the delivered
    and returned figures of the profile are those of the person's
    [performance] entry. *)
Theorem profile_agrees_with_performance :
  ∀ person people l,
    Forall reconciled l →
    person ∈ people →
    ∃ e,
      performance l people !! DeliveryPerson.id person = Some e
      ∧ ps_delivered (DeliveryPersonProfileView_stats person l) = delivered e
      ∧ ps_returned (DeliveryPersonProfileView_stats person l) = returned e.
Proof.
  intros person people l Hrec Hp. rewrite Forall_forall in Hrec.
  destruct (performance_init_lookup people (DeliveryPerson.id person)) as [n Hn];
    [by apply list_elem_of_fmap_2 |].
  destruct (profile_stats_sums person l) as [-> ->].
  unfold performance, aggregate. rewrite aggregate_fold_performance, Hn. simpl.
  eexists. split; [done |]. simpl.
  rewrite !counted_sum_of_courier;
    try (intros b Hb Hs Hc; by apply skipped_batch_is_empty; [apply Hrec | |]).
  done.
Qed.

Lemma profile_agrees_with_performance_witness :
  ∃ e,
    performance [sample_all_absent; sample_finalized] [sample_person; sample_idle]
      !! DeliveryPerson.id sample_person = Some e
    ∧ ps_delivered (DeliveryPersonProfileView_stats sample_person
                      [sample_all_absent; sample_finalized]) = delivered e
    ∧ ps_returned (DeliveryPersonProfileView_stats sample_person
                     [sample_all_absent; sample_finalized]) = returned e.
Proof.
  apply (profile_agrees_with_performance sample_person [sample_person; sample_idle]
           [sample_all_absent; sample_finalized]).
  - repeat constructor;
      [apply sample_all_absent_reconciled | apply sample_finalized_reconciled].
  - apply list_elem_of_here.
Defined.

Lemma finalizedBatchesOf_perm i l l' :
  l ≡ₚ l' → finalizedBatchesOf i l ≡ₚ finalizedBatchesOf i l'.
Proof. intros H. unfold finalizedBatchesOf, finalizedBatches. by rewrite H. Qed.

Lemma finalizedBatchesOf_app i l k :
  finalizedBatchesOf i (l ++ k) = finalizedBatchesOf i l ++ finalizedBatchesOf i k.
Proof. unfold finalizedBatchesOf, finalizedBatches. by rewrite !filter_app. Qed.

(** X19.  The profile of a person counts the archive too: its delivered
    and returned figures over the store are the sums over the person's
    finalized batches of the Active list plus the sums over those of the
    Archived list, and its pending figure is the number of the person's
    pending batches, all of which are on the Active list. *)
Theorem profile_counts_active_and_archived :
  ∀ person now l,
    ps_delivered (DeliveryPersonProfileView_stats person l)
    = Zsum batch_delivered
        (finalizedBatchesOf (DeliveryPerson.id person) (dashboardBatches now l))
      + Zsum batch_delivered
          (finalizedBatchesOf (DeliveryPerson.id person) (archivedBatches now l))
    ∧ ps_returned (DeliveryPersonProfileView_stats person l)
      = Zsum batch_returned
          (finalizedBatchesOf (DeliveryPerson.id person) (dashboardBatches now l))
        + Zsum batch_returned
            (finalizedBatchesOf (DeliveryPerson.id person) (archivedBatches now l))
    ∧ ps_pending (DeliveryPersonProfileView_stats person l)
      = length (filter (λ b, Batch.deliveryPersonId b = DeliveryPerson.id person
                             ∧ Batch.status b = pending) (dashboardBatches now l)).
Proof.
  intros person now l.
  assert (Hperm : dashboardBatches now l ++ archivedBatches now l ≡ₚ l).
  { unfold dashboardBatches, archivedBatches. rewrite partitionBatches_spec. simpl.
    rewrite !Array_sort_perm, Permutation_app_comm. apply filter_app_complement. }
  destruct (profile_stats_sums person l) as [-> ->].
  rewrite <- !Zsum_app, <- !finalizedBatchesOf_app.
  split; [| split].
  - apply Zsum_perm, finalizedBatchesOf_perm. by symmetry.
  - apply Zsum_perm, finalizedBatchesOf_perm. by symmetry.
  - unfold DeliveryPersonProfileView_stats. cbn [ps_pending].
    unfold dashboardBatches. rewrite partitionBatches_spec. simpl.
    rewrite Array_sort_perm, list_filter_filter.
    f_equal. apply list_filter_iff. intros b. split; [| tauto].
    intros [Hd Hs]. split; [done |]. intros [Hf _]. congruence.
Qed.

(** ** Identities between the dashboard figures *)

Lemma Zsum_add f g l : Zsum (λ b, f b + g b) l = Zsum f l + Zsum g l.
Proof. induction l as [| b l IH]; simpl; lia. Qed.

Lemma Zsum_scale c f l : Zsum (λ b, c * f b) l = c * Zsum f l.
Proof. induction l as [| b l IH]; simpl; lia. Qed.

Lemma reconciled_value b :
  reconciled b → Batch.status b = finalized →
  or0 (Batch.totalValue b) = DELIVERY_FEE * (batch_delivered b + batch_returned b).
Proof.
  intros Hr Hs. destruct (Hr Hs) as (c & Hsc & _ & _ & Htv & _).
  apply stored_counts_Some in Hsc as (Hpd & Hpr & _ & Hnd & Hnr & _).
  unfold batch_delivered, batch_returned.
  rewrite Htv, Hpd, Hpr, Hnd, Hnr, !or0_Some. unfold totalPaidItems. lia.
Qed.

(** X20.  Over reconciled batches the revenue shown on the dashboard is
    the fee times the documents shown as delivered or returned. *)
Theorem revenue_is_fee_times_handled :
  ∀ dashboard people,
    Forall reconciled dashboard →
    totalGains (summary dashboard people)
    = DELIVERY_FEE * (totalDelivered (summary dashboard people)
                      + totalReturned (summary dashboard people)).
Proof.
  intros dashboard people Hrec.
  destruct (summary_totals dashboard people Hrec) as (-> & -> & -> & _).
  rewrite <- Zsum_add, <- Zsum_scale. apply Zsum_ext.
  intros b [Hs Hb]%list_elem_of_filter.
  rewrite Forall_forall in Hrec. by apply reconciled_value; [apply Hrec |].
Qed.

Lemma revenue_is_fee_times_handled_witness :
  totalGains (summary [sample_all_absent; sample_finalized] [sample_person])
  = DELIVERY_FEE
    * (totalDelivered (summary [sample_all_absent; sample_finalized] [sample_person])
       + totalReturned (summary [sample_all_absent; sample_finalized] [sample_person])).
Proof.
  apply (revenue_is_fee_times_handled [sample_all_absent; sample_finalized]
           [sample_person]).
  repeat constructor;
    [apply sample_all_absent_reconciled | apply sample_finalized_reconciled].
Defined.

(** X21.  The figures do not depend on the order of the batches: two
    lists that hold the same batches give the same summary and the same
    [performance] map. *)
Theorem figures_ignore_order :
  ∀ l l' people,
    l ≡ₚ l' →
    summary l people = summary l' people
    ∧ performance l people = performance l' people.
Proof.
  intros l l' people Hperm. split.
  - unfold summary, aggregate. rewrite !aggregate_fold_summary.
    f_equal; f_equal; by apply Zsum_perm.
  - apply map_eq. intros k. unfold performance, aggregate.
    rewrite !aggregate_fold_performance.
    destruct (performance_init people !! k) as [e |]; [| done]. simpl.
    do 2 f_equal; f_equal; by apply Zsum_perm.
Qed.

Lemma figures_ignore_order_witness :
  summary [sample_all_absent; sample_finalized] [sample_person]
  = summary [sample_finalized; sample_all_absent] [sample_person]
  ∧ performance [sample_all_absent; sample_finalized] [sample_person]
    = performance [sample_finalized; sample_all_absent] [sample_person].
Proof.
  apply (figures_ignore_order [sample_all_absent; sample_finalized]
           [sample_finalized; sample_all_absent] [sample_person]).
  apply Permutation_swap.
Defined.

Lemma roster_sum_exchange (F : string → Batch.t → Z) people l :
  foldr (λ p acc, Zsum (F (DeliveryPerson.id p)) l + acc) 0 people
  = Zsum (λ b, foldr (λ p acc, F (DeliveryPerson.id p) b + acc) 0 people) l.
Proof.
  induction people as [| p people IH]; simpl.
  - induction l as [| b l IHl]; simpl; lia.
  - by rewrite IH, Zsum_add.
Qed.

Lemma roster_indicator people k (v : Z) :
  NoDup (DeliveryPerson.id <$> people) →
  foldr (λ p acc, (if bool_decide (k = DeliveryPerson.id p) then v else 0) + acc) 0 people
  = if decide (k ∈ DeliveryPerson.id <$> people) then v else 0.
Proof.
  induction people as [| p people IH]; [done |].
  rewrite fmap_cons, NoDup_cons. intros [Hp Hnd]. simpl. rewrite (IH Hnd).
  destruct (decide (k = DeliveryPerson.id p)) as [-> | Hne].
  - rewrite bool_decide_eq_true_2 by done.
    rewrite decide_False by done. rewrite decide_True by apply list_elem_of_here. lia.
  - rewrite bool_decide_eq_false_2 by done.
    destruct (decide (k ∈ DeliveryPerson.id <$> people)) as [Hin | Hout].
    + rewrite decide_True by (by apply list_elem_of_further). lia.
    + rewrite decide_False; [lia |]. by intros [? | ?]%elem_of_cons.
Qed.

Lemma roster_sum_pointwise proj perf people (G : string → Z) :
  (∀ p, p ∈ people → from_option proj 0 (perf !! DeliveryPerson.id p)
                     = G (DeliveryPerson.id p)) →
  roster_sum proj perf people = foldr (λ p acc, G (DeliveryPerson.id p) + acc) 0 people.
Proof.
  unfold roster_sum. induction people as [| p people IH]; intros H; [done |]. simpl.
  rewrite H by apply list_elem_of_here. rewrite IH; [done |].
  intros q Hq. apply H. by apply list_elem_of_further.
Qed.

Lemma roster_cells_add_up (f : Batch.t → Z) dashboard people :
  NoDup (DeliveryPerson.id <$> people) →
  (∀ b, b ∈ dashboard → counted b = true →
        Batch.deliveryPersonId b ∈ DeliveryPerson.id <$> people) →
  foldr (λ p acc,
           Zsum (λ b, if counted b
                         && bool_decide (Batch.deliveryPersonId b = DeliveryPerson.id p)
                      then f b else 0) dashboard + acc) 0 people
  = Zsum (λ b, if counted b then f b else 0) dashboard.
Proof.
  intros Hnd Hknown.
  pose proof (roster_sum_exchange
                (λ (k : string) (b : Batch.t),
                   if counted b && bool_decide (Batch.deliveryPersonId b = k)
                   then f b else 0) people dashboard) as Hex.
  etransitivity; [exact Hex |].
  apply Zsum_ext. intros b Hb.
  destruct (counted b) eqn:Hc; simpl.
  - rewrite roster_indicator by done. rewrite decide_True; [done |]. by apply Hknown.
  - clear. induction people as [| p ps IH]; simpl; [done | by rewrite IH].
Qed.

Lemma performance_entry dashboard people k :
  k ∈ DeliveryPerson.id <$> people →
  ∃ n,
    performance dashboard people !! k
    = Some {| gains :=
                Zsum (λ b, if counted b && bool_decide (Batch.deliveryPersonId b = k)
                           then default 0 (Batch.totalValue b) else 0) dashboard;
              delivered :=
                Zsum (λ b, if counted b && bool_decide (Batch.deliveryPersonId b = k)
                           then batch_delivered b else 0) dashboard;
              returned :=
                Zsum (λ b, if counted b && bool_decide (Batch.deliveryPersonId b = k)
                           then batch_returned b else 0) dashboard;
              name := n |}.
Proof.
  intros Hk. destruct (performance_init_lookup people k Hk) as [n Hn].
  exists n. unfold performance, aggregate.
  by rewrite aggregate_fold_performance, Hn.
Qed.

(** X22.  When the ids of the roster are distinct and every batch the
    loop counts belongs to a person of the roster, the per-courier
    figures add up to the system figures: the gains, the delivered counts
    and the returned counts of the [performance] entries sum to the
    revenue, the delivered total and the returned total of the summary. *)
Theorem couriers_add_up_to_summary :
  ∀ dashboard people,
    NoDup (DeliveryPerson.id <$> people) →
    (∀ b, b ∈ dashboard → counted b = true →
          Batch.deliveryPersonId b ∈ DeliveryPerson.id <$> people) →
    roster_sum gains (performance dashboard people) people
    = totalGains (summary dashboard people)
    ∧ roster_sum delivered (performance dashboard people) people
      = totalDelivered (summary dashboard people)
    ∧ roster_sum returned (performance dashboard people) people
      = totalReturned (summary dashboard people).
Proof.
  intros dashboard people Hnd Hknown.
  unfold summary, aggregate. rewrite aggregate_fold_summary. simpl.
  repeat split.
  - rewrite <- (roster_cells_add_up _ dashboard people Hnd Hknown).
    pose proof (roster_sum_pointwise gains (performance dashboard people) people
             (λ k : string,
                Zsum (λ b, if counted b && bool_decide (Batch.deliveryPersonId b = k)
                              then default 0 (Batch.totalValue b) else 0) dashboard)) as Hpw.
    apply Hpw. intros p Hp.
    destruct (performance_entry dashboard people (DeliveryPerson.id p)) as [n ->];
      [by apply list_elem_of_fmap_2 | done].
  - rewrite <- (roster_cells_add_up _ dashboard people Hnd Hknown).
    pose proof (roster_sum_pointwise delivered (performance dashboard people) people
             (λ k : string,
                Zsum (λ b, if counted b && bool_decide (Batch.deliveryPersonId b = k)
                              then batch_delivered b else 0) dashboard)) as Hpw.
    apply Hpw. intros p Hp.
    destruct (performance_entry dashboard people (DeliveryPerson.id p)) as [n ->];
      [by apply list_elem_of_fmap_2 | done].
  - rewrite <- (roster_cells_add_up _ dashboard people Hnd Hknown).
    pose proof (roster_sum_pointwise returned (performance dashboard people) people
             (λ k : string,
                Zsum (λ b, if counted b && bool_decide (Batch.deliveryPersonId b = k)
                              then batch_returned b else 0) dashboard)) as Hpw.
    apply Hpw. intros p Hp.
    destruct (performance_entry dashboard people (DeliveryPerson.id p)) as [n ->];
      [by apply list_elem_of_fmap_2 | done].
Qed.

Lemma couriers_add_up_to_summary_witness :
  roster_sum gains
    (performance [sample_all_absent; sample_finalized] [sample_person; sample_idle])
    [sample_person; sample_idle]
  = totalGains (summary [sample_all_absent; sample_finalized]
                  [sample_person; sample_idle])
  ∧ roster_sum delivered
      (performance [sample_all_absent; sample_finalized] [sample_person; sample_idle])
      [sample_person; sample_idle]
    = totalDelivered (summary [sample_all_absent; sample_finalized]
                        [sample_person; sample_idle])
  ∧ roster_sum returned
      (performance [sample_all_absent; sample_finalized] [sample_person; sample_idle])
      [sample_person; sample_idle]
    = totalReturned (summary [sample_all_absent; sample_finalized]
                       [sample_person; sample_idle]).
Proof.
  apply (couriers_add_up_to_summary [sample_all_absent; sample_finalized]
           [sample_person; sample_idle]).
  - simpl. apply NoDup_cons. split; [| apply NoDup_singleton].
    by intros [? | ?%elem_of_nil]%elem_of_cons.
  - intros b Hb _. simpl.
    apply elem_of_cons in Hb as [-> | Hb]; [apply list_elem_of_here |].
    apply elem_of_cons in Hb as [-> | Hb]; [apply list_elem_of_here |].
    by apply elem_of_nil in Hb.
Defined.

(** ** Editing a finalized batch *)

(** X23.  An edit submit ends in one of three ways.  If the edit schema
    cannot be built, the handler throws and nothing is stored.  If the
    schema is built and the form does not parse, only field errors are
    recorded: batches and people stay.  If the form parses, then, in a
    store whose ids are distinct, the batch at position [k] changes only
    in its six counts and its [totalValue]: id, deliveryPersonId, both
    initial counts, both dates, the description, the status and the
    return instant stay, and so do every other position of the list, its
    length and the people. *)
Theorem edit_frame :
  ∀ omit st k batch data,
    NoDup (Batch.id <$> batches st) →
    batches st !! k = Some batch →
    (∀ e, createEditBatchSchema omit batch = inl e →
          EditBatchModal_handleSubmit omit batch data st = Throw e)
    ∧ (∀ schema issues,
          createEditBatchSchema omit batch = inr schema →
          schema data = Failure issues →
          ∃ st',
            EditBatchModal_handleSubmit omit batch data st = Normal st'
            ∧ errors st' = getZodFieldErrors issues
            ∧ batches st' = batches st
            ∧ deliveryPeople st' = deliveryPeople st)
    ∧ (∀ schema c,
          createEditBatchSchema omit batch = inr schema →
          schema data = Success c →
          ∃ st' b',
            EditBatchModal_handleSubmit omit batch data st = Normal st'
            ∧ batches st' !! k = Some b'
            ∧ Batch.id b' = Batch.id batch
            ∧ Batch.deliveryPersonId b' = Batch.deliveryPersonId batch
            ∧ Batch.pgfnInitial b' = Batch.pgfnInitial batch
            ∧ Batch.normalInitial b' = Batch.normalInitial batch
            ∧ Batch.departureDatetime b' = Batch.departureDatetime batch
            ∧ Batch.estimatedReturnDate b' = Batch.estimatedReturnDate batch
            ∧ Batch.description b' = Batch.description batch
            ∧ Batch.status b' = Batch.status batch
            ∧ Batch.returnDatetime b' = Batch.returnDatetime batch
            ∧ stored_counts b' = Some data
            ∧ Batch.totalValue b'
              = Some ((c_pgfnDelivered data + c_pgfnReturned data
                       + c_normalDelivered data + c_normalReturned data) * DELIVERY_FEE)
            ∧ (∀ j, j ≠ k → batches st' !! j = batches st !! j)
            ∧ length (batches st') = length (batches st)
            ∧ deliveryPeople st' = deliveryPeople st).
Proof.
  intros omit st k batch data Hnd Hk. split; [| split].
  - intros e E. unfold EditBatchModal_handleSubmit. by rewrite E.
  - intros schema issues Hschema E.
    unfold EditBatchModal_handleSubmit. rewrite Hschema, E. by eexists.
  - intros schema c Hschema E.
    unfold EditBatchModal_handleSubmit, updateBatch. rewrite Hschema, E.
    destruct omit; [done |]. injection Hschema as <-.
    apply countsSchema_Success in E as (-> & _).
    eexists _, _. split; [done |]. rewrite batches_setBatches.
    split; [by apply replace_lookup_self with batch |].
    do 9 (split; [done |]).
    split; [apply stored_counts_edited |]. split; [done |].
    split; [| split; [by rewrite length_fmap | done]].
    intros j Hj. by apply replace_lookup_elsewhere with k batch.
Qed.

Lemma edit_frame_witness :
  EditBatchModal_handleSubmit (OmitThrows "TypeError") sample_finalized
    (mkCounts 6 2 5 0 0 0)
    (mkState [sample_stray; sample_finalized] [sample_person] ∅) = Throw "TypeError"
  ∧ (∃ st',
        EditBatchModal_handleSubmit OmitDropsRefinement sample_finalized
          (mkCounts (-1) 2 5 0 0 0)
          (mkState [sample_stray; sample_finalized] [sample_person] ∅) = Normal st'
        ∧ errors st' = getZodFieldErrors ["pgfnDelivered"]
        ∧ batches st' = [sample_stray; sample_finalized]
        ∧ deliveryPeople st' = [sample_person])
  ∧ (∃ st' b',
        EditBatchModal_handleSubmit OmitDropsRefinement sample_finalized
          (mkCounts 6 2 5 0 0 0)
          (mkState [sample_stray; sample_finalized] [sample_person] ∅) = Normal st'
        ∧ batches st' !! 1%nat = Some b'
        ∧ Batch.id b' = Batch.id sample_finalized
        ∧ Batch.deliveryPersonId b' = Batch.deliveryPersonId sample_finalized
        ∧ Batch.pgfnInitial b' = Batch.pgfnInitial sample_finalized
        ∧ Batch.normalInitial b' = Batch.normalInitial sample_finalized
        ∧ Batch.departureDatetime b' = Batch.departureDatetime sample_finalized
        ∧ Batch.estimatedReturnDate b' = Batch.estimatedReturnDate sample_finalized
        ∧ Batch.description b' = Batch.description sample_finalized
        ∧ Batch.status b' = Batch.status sample_finalized
        ∧ Batch.returnDatetime b' = Batch.returnDatetime sample_finalized
        ∧ stored_counts b' = Some (mkCounts 6 2 5 0 0 0)
        ∧ Batch.totalValue b' = Some ((6 + 2 + 0 + 0) * DELIVERY_FEE)
        ∧ (∀ j, j ≠ 1%nat →
                batches st' !! j = [sample_stray; sample_finalized] !! j)
        ∧ length (batches st') = length [sample_stray; sample_finalized]
        ∧ deliveryPeople st' = [sample_person]).
Proof.
  assert (Hnd : NoDup (Batch.id <$> [sample_stray; sample_finalized])).
  { simpl. apply NoDup_cons. split; [| apply NoDup_singleton].
    by intros [? | ?%elem_of_nil]%elem_of_cons. }
  split; [| split].
  - apply (edit_frame (OmitThrows "TypeError")
             (mkState [sample_stray; sample_finalized] [sample_person] ∅)
             1%nat sample_finalized (mkCounts 6 2 5 0 0 0) Hnd); reflexivity.
  - apply (edit_frame OmitDropsRefinement
             (mkState [sample_stray; sample_finalized] [sample_person] ∅)
             1%nat sample_finalized (mkCounts (-1) 2 5 0 0 0) Hnd eq_refl)
      with countsSchema; reflexivity.
  - apply (edit_frame OmitDropsRefinement
             (mkState [sample_stray; sample_finalized] [sample_person] ∅)
             1%nat sample_finalized (mkCounts 6 2 5 0 0 0) Hnd eq_refl)
      with countsSchema (mkCounts 6 2 5 0 0 0); reflexivity.
Defined.

Lemma edited_batch_same batch c :
  stored_counts batch = Some c →
  Batch.totalValue batch = Some (totalPaidItems c * DELIVERY_FEE) →
  edited_batch batch c = batch.
Proof.
  intros Hsc Htv.
  apply stored_counts_Some in Hsc as (Hpd & Hpr & Hpa & Hnd & Hnr & Hna).
  destruct batch. simpl in *. unfold edited_batch. simpl. congruence.
Qed.

(** X24.  Where the edit schema can be built, saving the edit form of a
    finalized batch with the counts it already has changes nothing,
    provided the batch carries the value computed from its counts: the
    form is accepted and the state after the submit is the state before
    it. *)
Theorem edit_with_stored_counts_is_a_no_op :
  ∀ omit st batch c schema,
    NoDup (Batch.id <$> batches st) →
    batch ∈ batches st →
    valued batch →
    Batch.status batch = finalized →
    stored_counts batch = Some c →
    createEditBatchSchema omit batch = inr schema →
    EditBatchModal_handleSubmit omit batch c st = Normal st.
Proof.
  intros omit st batch c schema Hnd Hin Hval Hs Hsc Hschema.
  destruct omit; [done |]. clear Hschema.
  destruct (Hval Hs) as (c' & Hsc' & Hnn & Htv & _).
  assert (c' = c) as -> by congruence.
  rewrite EditBatchModal_handleSubmit_accepts by done.
  unfold updateBatch.
  rewrite (edited_batch_same _ _ Hsc Htv). f_equal. apply setBatches_same.
  rewrite <- (list_fmap_id (batches st)) at 2. apply list_fmap_ext.
  intros i b Hb. simpl. case_decide as Hid; [| done].
  symmetry. apply (NoDup_ids_eq (batches st)); [done | | done | done].
  by eapply list_elem_of_lookup_2.
Qed.

Lemma edit_with_stored_counts_is_a_no_op_witness :
  EditBatchModal_handleSubmit OmitDropsRefinement sample_overcounted sample_unbalanced
    (mkState [sample_overcounted] [] ∅)
  = Normal (mkState [sample_overcounted] [] ∅).
Proof.
  apply (edit_with_stored_counts_is_a_no_op OmitDropsRefinement
           (mkState [sample_overcounted] [] ∅) sample_overcounted sample_unbalanced
           countsSchema).
  - simpl. apply NoDup_singleton.
  - apply list_elem_of_here.
  - intros _. exists sample_unbalanced. split; [reflexivity |].
    split; [| split; [reflexivity | by eexists]].
    unfold non_negative. simpl. lia.
  - reflexivity.
  - reflexivity.
  - reflexivity.
Defined.

(** ** Further invariants of the reachable states *)

(** X25.  In every reachable state, whatever [.omit] does, a finalized
    batch has a return instant and a [totalValue] that is the fee times
    its stored delivered and returned counts, hence not negative.  While
    the edit handler throws, the value is also at most the fee times the
    documents entrusted: it is the fee times the documents that were not
    reported absent. *)
Theorem payout_is_bounded :
  ∀ omit localeCompare st b,
    reachable omit localeCompare st →
    b ∈ batches st →
    Batch.status b = finalized →
    ∃ v ret,
      Batch.totalValue b = Some v
      ∧ Batch.returnDatetime b = Some ret
      ∧ 0 ≤ v
      ∧ v = DELIVERY_FEE
            * (default 0 (Batch.pgfnDelivered b) + default 0 (Batch.pgfnReturned b)
               + default 0 (Batch.normalDelivered b)
               + default 0 (Batch.normalReturned b))
      ∧ ((∃ e, omit = OmitThrows e) →
         v ≤ DELIVERY_FEE * (Batch.pgfnInitial b + Batch.normalInitial b)
         ∧ v = DELIVERY_FEE
               * (Batch.pgfnInitial b + Batch.normalInitial b
                  - (default 0 (Batch.pgfnAbsent b)
                     + default 0 (Batch.normalAbsent b)))).
Proof.
  intros omit lc st b Hreach Hb Hs.
  pose proof (reachable_ids_valued _ _ _ Hreach) as [_ Hval].
  rewrite Forall_forall in Hval.
  destruct (Hval b Hb Hs) as (c & Hsc & Hnn & Htv & [ret Hret]).
  pose proof (stored_counts_Some _ _ Hsc) as (Hpd & Hpr & Hpa & Hnd & Hnr & Hna).
  exists (totalPaidItems c * DELIVERY_FEE), ret.
  split; [done |]. split; [done |].
  rewrite Hpd, Hpr, Hpa, Hnd, Hnr, Hna. simpl.
  split; [unfold totalPaidItems, DELIVERY_FEE, non_negative in *; lia |].
  split; [unfold totalPaidItems, DELIVERY_FEE; lia |].
  intros [e ->]. apply reachable_store_ok in Hreach as [_ Hrec].
  rewrite Forall_forall in Hrec.
  destruct (Hrec b Hb Hs) as (c' & Hsc' & [Hp Hn] & _).
  assert (c' = c) as -> by congruence.
  unfold totalPaidItems, DELIVERY_FEE, non_negative in *. lia.
Qed.

Lemma payout_is_bounded_witness :
  (∃ v ret,
      Batch.totalValue sample_finalized = Some v
      ∧ Batch.returnDatetime sample_finalized = Some ret
      ∧ 0 ≤ v
      ∧ v = DELIVERY_FEE
            * (default 0 (Batch.pgfnDelivered sample_finalized)
               + default 0 (Batch.pgfnReturned sample_finalized)
               + default 0 (Batch.normalDelivered sample_finalized)
               + default 0 (Batch.normalReturned sample_finalized))
      ∧ ((∃ e, OmitThrows "TypeError" = OmitThrows e) →
         v ≤ DELIVERY_FEE * (Batch.pgfnInitial sample_finalized
                             + Batch.normalInitial sample_finalized)
         ∧ v = DELIVERY_FEE
               * (Batch.pgfnInitial sample_finalized
                  + Batch.normalInitial sample_finalized
                  - (default 0 (Batch.pgfnAbsent sample_finalized)
                     + default 0 (Batch.normalAbsent sample_finalized)))))
  ∧ (∃ v ret,
        Batch.totalValue sample_overcounted = Some v
        ∧ Batch.returnDatetime sample_overcounted = Some ret
        ∧ 0 ≤ v
        ∧ v = DELIVERY_FEE
              * (default 0 (Batch.pgfnDelivered sample_overcounted)
                 + default 0 (Batch.pgfnReturned sample_overcounted)
                 + default 0 (Batch.normalDelivered sample_overcounted)
                 + default 0 (Batch.normalReturned sample_overcounted))
        ∧ ((∃ e, OmitDropsRefinement = OmitThrows e) →
           v ≤ DELIVERY_FEE * (Batch.pgfnInitial sample_overcounted
                               + Batch.normalInitial sample_overcounted)
           ∧ v = DELIVERY_FEE
                 * (Batch.pgfnInitial sample_overcounted
                    + Batch.normalInitial sample_overcounted
                    - (default 0 (Batch.pgfnAbsent sample_overcounted)
                       + default 0 (Batch.normalAbsent sample_overcounted))))).
Proof.
  split.
  - apply (payout_is_bounded (OmitThrows "TypeError") sample_compare sample_closed
             sample_finalized).
    + apply sample_closed_reachable.
    + apply list_elem_of_here.
    + reflexivity.
  - apply (payout_is_bounded OmitDropsRefinement sample_compare
             (mkState [sample_overcounted] [] ∅) sample_overcounted).
    + eapply rtc_r; [apply sample_closed_reachable |].
      exists (SubmitEdit sample_finalized sample_unbalanced). split; [| reflexivity].
      apply list_elem_of_here.
    + apply list_elem_of_here.
    + reflexivity.
Defined.

Lemma step_well_created omit localeCompare st st' :
  Forall well_created (batches st) → step omit localeCompare st st' →
  Forall well_created (batches st').
Proof.
  intros Hwc (a & Hen & Hrun).
  destruct a as [data now | person data | personId | data now | batch data
                | batch data | batchId].
  - apply handleSubmit_person_batches in Hrun; [| done]. by rewrite Hrun.
  - apply handleSubmit_person_batches in Hrun; [| done]. by rewrite Hrun.
  - injection Hrun as <-. rewrite batches_setBatches. by apply Forall_filter_keep.
  - unfold run, NewBatchModal_handleSubmit, addBatch in Hrun.
    destruct (newBatchSchema data) as [d |] eqn:E; injection Hrun as <-; [| done].
    rewrite batches_setBatches. apply Forall_cons. split; [| done].
    pose proof (newBatchSchema_Success _ _ E) as (Hid & Hp & Hn & Hpos & Ep & En).
    unfold newBatchSchema in E.
    destruct (newBatch_object data ++ newBatch_refine data);
      destruct (nb_departureDatetime data), (nb_estimatedReturnDate data); try done.
    injection E as <-. split; [by exists now |]. simpl. repeat split; [done.. | lia].
  - unfold run, FinalizeBatchModal_handleSubmit, updateBatch in Hrun.
    destruct Hen as [Hbatch _].
    destruct (createFinalizeBatchSchema batch data) as [r |];
      injection Hrun as <-; [| done].
    rewrite batches_setBatches. apply Forall_replace; [| done].
    by apply (proj1 (Forall_forall _ _) Hwc) in Hbatch.
  - simpl in Hrun, Hen.
    apply EditBatchModal_handleSubmit_Normal in Hrun as (_ & [[Hn Hrun] | [issues ->]]);
      [| done].
    unfold updateBatch in Hrun. injection Hrun as <-.
    rewrite batches_setBatches. apply Forall_replace; [| done].
    by apply (proj1 (Forall_forall _ _) Hwc) in Hen.
  - injection Hrun as <-. rewrite batches_setBatches. by apply Forall_filter_keep.
Qed.

(** X26.  What the new-batch form checks stays true of every stored
    batch: in every reachable state each batch has an id that is the
    decimal rendering of a clock value, a non-empty deliveryPersonId,
    non-negative initial counts and at least one document. *)
Theorem creation_rule_is_invariant :
  ∀ omit localeCompare st b,
    reachable omit localeCompare st →
    b ∈ batches st →
    (∃ now : Z, Batch.id b = pretty now)
    ∧ Batch.deliveryPersonId b ≠ ""
    ∧ 0 ≤ Batch.pgfnInitial b ∧ 0 ≤ Batch.normalInitial b
    ∧ 0 < Batch.pgfnInitial b + Batch.normalInitial b.
Proof.
  intros omit lc st b Hreach Hb.
  assert (Hall : Forall well_created (batches st)).
  { clear Hb. revert st Hreach. apply rtc_ind_r; [constructor |].
    intros st st' _ Hstep IH. by eapply step_well_created. }
  rewrite Forall_forall in Hall. by apply Hall.
Qed.

Lemma creation_rule_is_invariant_witness :
  (∃ now : Z, Batch.id sample_finalized = pretty now)
  ∧ Batch.deliveryPersonId sample_finalized ≠ ""
  ∧ 0 ≤ Batch.pgfnInitial sample_finalized ∧ 0 ≤ Batch.normalInitial sample_finalized
  ∧ 0 < Batch.pgfnInitial sample_finalized + Batch.normalInitial sample_finalized.
Proof.
  apply (creation_rule_is_invariant (OmitThrows "TypeError") sample_compare sample_closed
           sample_finalized).
  - apply sample_closed_reachable.
  - apply list_elem_of_here.
Defined.

(** ** Modal flags and selection *)

Lemma setFlag_isOpen modalName v m : isOpen modalName (setFlag modalName v m) = v.
Proof. by destruct modalName. Qed.

Lemma setFlag_isOpen_other modalName other v m :
  other ≠ modalName → isOpen other (setFlag modalName v m) = isOpen other m.
Proof. intros Hne. by destruct other, modalName. Qed.

(** X27.  The Edit button of the details modal never shows the edit
    form: it raises the [editBatch] flag but clears the selected batch,
    so no batch modal is rendered afterwards.  The flag stays raised, and
    the next click on a dashboard card renders the edit modal for the
    clicked batch, whatever its status, next to the modal the click
    itself opens. *)
Theorem details_edit_button_loses_the_batch :
  ∀ capturedId ui b,
    let ui' := BatchDetailsModal_onEdit capturedId ui in
    isOpen editBatch (modalState ui') = true
    ∧ selectedBatch ui' = None
    ∧ renderedFor editBatch ui' = None
    ∧ renderedFor batchDetails ui' = None
    ∧ renderedFor finalizeBatch ui' = None
    ∧ renderedFor editBatch (Dashboard_onBatchClick b ui') = Some b
    ∧ renderedFor (DashboardView_onBatchClick b) (Dashboard_onBatchClick b ui') = Some b.
Proof.
  intros capturedId ui b ui'. subst ui'.
  unfold BatchDetailsModal_onEdit, Dashboard_onBatchClick, renderedFor,
    openModal, closeModal.
  cbn [modalState selectedBatch].
  rewrite !setFlag_isOpen.
  rewrite decide_True by (apply list_elem_of_further, list_elem_of_here).
  repeat split; try by repeat case_match.
  unfold DashboardView_onBatchClick. case_decide.
  - rewrite setFlag_isOpen_other by done. by rewrite setFlag_isOpen.
  - rewrite setFlag_isOpen_other by done. by rewrite setFlag_isOpen.
Qed.

(** X28.  From a state with no batch selected and the flag of the
    clicked card's modal down, a click on a dashboard card renders the
    finalize modal for a pending batch and the details modal for any
    other, each for the clicked batch; closing that modal restores the
    state before the click. *)
Theorem click_then_close_restores :
  ∀ capturedId ui b,
    selectedBatch ui = None →
    isOpen (DashboardView_onBatchClick b) (modalState ui) = false →
    renderedFor (DashboardView_onBatchClick b) (Dashboard_onBatchClick b ui) = Some b
    ∧ (DashboardView_onBatchClick b = finalizeBatch ↔ Batch.status b = pending)
    ∧ closeModal capturedId (DashboardView_onBatchClick b) (Dashboard_onBatchClick b ui)
      = ui.
Proof.
  intros capturedId ui b Hsel Hflag.
  split; [| split; [apply onBatchClick_pending |]].
  - unfold renderedFor, Dashboard_onBatchClick, openModal. cbn [modalState selectedBatch].
    by rewrite setFlag_isOpen.
  - destruct ui as [m sb sp]. simpl in Hsel, Hflag. subst sb.
    unfold Dashboard_onBatchClick, DashboardView_onBatchClick in *.
    destruct m. case_decide; simpl in *; subst; reflexivity.
Qed.

Lemma click_then_close_restores_witness :
  renderedFor (DashboardView_onBatchClick sample_pending)
    (Dashboard_onBatchClick sample_pending initialUI) = Some sample_pending
  ∧ (DashboardView_onBatchClick sample_pending = finalizeBatch
     ↔ Batch.status sample_pending = pending)
  ∧ closeModal None (DashboardView_onBatchClick sample_pending)
      (Dashboard_onBatchClick sample_pending initialUI) = initialUI.
Proof.
  apply (click_then_close_restores None initialUI sample_pending); reflexivity.
Defined.

(** ** Deleting a person, seen from the performance panel *)

Lemma performance_init_snoc people p :
  performance_init (people ++ [p])
  = <[DeliveryPerson.id p :=
        {| gains := 0; delivered := 0; returned := 0; name := DeliveryPerson.name p |}]>
      (performance_init people).
Proof. unfold performance_init. by rewrite foldl_snoc. Qed.

Lemma performance_init_absent people k :
  k ∉ DeliveryPerson.id <$> people → performance_init people !! k = None.
Proof.
  intros Hk. unfold performance_init. by rewrite performance_init_other.
Qed.

Lemma performance_init_filter people personId k :
  k ≠ personId →
  performance_init (filter (λ p, DeliveryPerson.id p ≠ personId) people) !! k
  = performance_init people !! k.
Proof.
  intros Hk. induction people as [| p people IH] using rev_ind; [done |].
  rewrite filter_app, filter_cons, filter_nil, performance_init_snoc.
  case_decide as Hp.
  - rewrite performance_init_snoc.
    destruct (decide (DeliveryPerson.id p = k)) as [<- | Hne].
    + by rewrite !lookup_insert_eq.
    + by rewrite !lookup_insert_ne.
  - rewrite app_nil_r, IH, Hp. by rewrite lookup_insert_ne.
Qed.

(** X29.  After a person is deleted, the performance panel computed
    from the remaining people and batches has no entry under the deleted
    id, and the entry of every other id is what it was before. *)
Theorem deleteDeliveryPerson_on_the_panel :
  ∀ personId st,
    ∃ st',
      deleteDeliveryPerson personId st = Normal st'
      ∧ performance (batches st') (deliveryPeople st') !! personId = None
      ∧ ∀ k, k ≠ personId →
             performance (batches st') (deliveryPeople st') !! k
             = performance (batches st) (deliveryPeople st) !! k.
Proof.
  intros personId st. eexists. split; [reflexivity |]. simpl. split.
  - unfold performance, aggregate. rewrite aggregate_fold_performance.
    rewrite performance_init_absent; [done |].
    intros (p & E & Hp)%list_elem_of_fmap.
    apply list_elem_of_filter in Hp as [Hne _]. by apply Hne.
  - intros k Hk. unfold performance, aggregate.
    rewrite !aggregate_fold_performance, performance_init_filter by done.
    destruct (performance_init (deliveryPeople st) !! k) as [e |]; [| done]. simpl.
    assert (Hsum : ∀ f : Batch.t → Z,
               Zsum (λ b, if counted b && bool_decide (Batch.deliveryPersonId b = k)
                          then f b else 0)
                    (filter (λ b, Batch.deliveryPersonId b ≠ personId) (batches st))
               = Zsum (λ b, if counted b && bool_decide (Batch.deliveryPersonId b = k)
                            then f b else 0) (batches st)).
    { intros f. rewrite Zsum_filter. apply Zsum_ext. intros b _.
      case_decide as Hb; [done |].
      rewrite bool_decide_eq_false_2 by congruence. by rewrite andb_false_r. }
    by rewrite !Hsum.
Qed.

(** ** A finalize, seen from the dashboard summary *)

Lemma dashboard_sum now (G : Batch.t → Z) l :
  Zsum G (dashboardBatches now l)
  = Zsum (λ b, if decide (¬ archived_at now b) then G b else 0) l.
Proof.
  unfold dashboardBatches. rewrite partitionBatches_spec. simpl.
  rewrite (Zsum_perm _ _ _ (Array_sort_perm sortFn _)). apply Zsum_filter.
Qed.

Lemma replace_at i u (l : list Batch.t) k batch :
  NoDup (Batch.id <$> l) → l !! k = Some batch → Batch.id batch = i →
  (λ b, if decide (Batch.id b = i) then u else b) <$> l
  = take k l ++ u :: drop (S k) l.
Proof.
  intros Hnd Hk Hi.
  rewrite <- (take_drop_middle l k batch Hk) at 1.
  rewrite <- (take_drop_middle l k batch Hk) in Hnd.
  rewrite fmap_app, fmap_cons in Hnd. rewrite fmap_app, fmap_cons.
  apply NoDup_app in Hnd as (_ & Hleft & Hright).
  apply NoDup_cons in Hright as [Hright _].
  rewrite decide_True by done. f_equal; [| f_equal].
  - apply replace_absent. intros Hin. apply (Hleft _ Hin). rewrite Hi. apply list_elem_of_here.
  - apply replace_absent. by rewrite <- Hi.
Qed.

Lemma Zsum_replace_at (G : Batch.t → Z) i u (l : list Batch.t) k batch :
  NoDup (Batch.id <$> l) → l !! k = Some batch → Batch.id batch = i →
  Zsum G ((λ b, if decide (Batch.id b = i) then u else b) <$> l)
  = Zsum G l - G batch + G u.
Proof.
  intros Hnd Hk Hi. rewrite (replace_at i u l k batch Hnd Hk Hi).
  pose proof (take_drop_middle l k batch Hk) as Hl.
  remember (take k l) as l1. remember (drop (S k) l) as l2.
  rewrite <- Hl, !Zsum_app. simpl. lia.
Qed.

(** X30.  Finalizing a pending batch with a return instant not more
    than four days before [now] raises the dashboard summary by exactly
    that batch: the revenue by its [totalValue], the delivered total by
    its delivered counts and the returned total by its returned counts. *)
Theorem finalize_raises_the_summary :
  ∀ st k batch data r people now,
    NoDup (Batch.id <$> batches st) →
    batches st !! k = Some batch →
    Batch.status batch = pending →
    createFinalizeBatchSchema batch data = Success r →
    now - fd_returnDatetime r ≤ ARCHIVE_DELAY_DAYS * msPerDay →
    ∃ st',
      FinalizeBatchModal_handleSubmit batch data st = Normal st'
      ∧ totalGains (summary (dashboardBatches now (batches st')) people)
        = totalGains (summary (dashboardBatches now (batches st)) people)
          + totalPaidItems (ff_counts data) * DELIVERY_FEE
      ∧ totalDelivered (summary (dashboardBatches now (batches st')) people)
        = totalDelivered (summary (dashboardBatches now (batches st)) people)
          + (c_pgfnDelivered (ff_counts data) + c_normalDelivered (ff_counts data))
      ∧ totalReturned (summary (dashboardBatches now (batches st')) people)
        = totalReturned (summary (dashboardBatches now (batches st)) people)
          + (c_pgfnReturned (ff_counts data) + c_normalReturned (ff_counts data)).
Proof.
  intros st k batch data r people now Hnd Hk Hs E Hrecent.
  unfold FinalizeBatchModal_handleSubmit, updateBatch. rewrite E.
  apply createFinalizeBatchSchema_Success in E as (_ & Hc & Hnn & _).
  eexists. split; [reflexivity |]. rewrite batches_setBatches.
  set (u := finalized_batch batch (fd_returnDatetime r) (fd_counts r)).
  unfold summary, aggregate. rewrite !aggregate_fold_summary. simpl.
  rewrite !dashboard_sum.
  rewrite !(Zsum_replace_at _ (Batch.id u) u _ k batch Hnd Hk eq_refl).
  assert (Hactive : ¬ archived_at now u).
  { intros (_ & ret & [= <-] & Hlt). lia. }
  assert (Hpending : counted batch = false).
  { unfold counted. by rewrite bool_decide_eq_false_2 by congruence. }
  rewrite !(decide_True _ _ Hactive), Hpending.
  assert (Hu : counted u = negb (totalPaidItems (fd_counts r) * DELIVERY_FEE =? 0))
    by done.
  rewrite Hu. subst u. unfold batch_delivered, batch_returned.
  cbn [finalized_batch Batch.totalValue Batch.pgfnDelivered Batch.normalDelivered
       Batch.pgfnReturned Batch.normalReturned default from_option].
  rewrite Hc, !or0_Some.
  unfold non_negative in Hnn. unfold totalPaidItems, DELIVERY_FEE in *.
  destruct (Z.eqb_spec ((c_pgfnDelivered (ff_counts data) + c_pgfnReturned (ff_counts data)
                         + c_normalDelivered (ff_counts data)
                         + c_normalReturned (ff_counts data)) * 3) 0) as [Hz | Hz];
    simpl; repeat case_decide; repeat split; lia.
Qed.

Lemma finalize_raises_the_summary_witness :
  ∃ st',
    FinalizeBatchModal_handleSubmit sample_pending sample_form sample_open = Normal st'
    ∧ totalGains (summary (dashboardBatches 6000 (batches st')) [sample_person])
      = totalGains (summary (dashboardBatches 6000 (batches sample_open)) [sample_person])
        + totalPaidItems (ff_counts sample_form) * DELIVERY_FEE
    ∧ totalDelivered (summary (dashboardBatches 6000 (batches st')) [sample_person])
      = totalDelivered
          (summary (dashboardBatches 6000 (batches sample_open)) [sample_person])
        + (c_pgfnDelivered (ff_counts sample_form)
           + c_normalDelivered (ff_counts sample_form))
    ∧ totalReturned (summary (dashboardBatches 6000 (batches st')) [sample_person])
      = totalReturned
          (summary (dashboardBatches 6000 (batches sample_open)) [sample_person])
        + (c_pgfnReturned (ff_counts sample_form)
           + c_normalReturned (ff_counts sample_form)).
Proof.
  apply (finalize_raises_the_summary sample_open 0%nat sample_pending sample_form
           (mkFinalizeData 5000 sample_counts) [sample_person] 6000).
  - simpl. apply NoDup_singleton.
  - reflexivity.
  - reflexivity.
  - reflexivity.
  - simpl. unfold ARCHIVE_DELAY_DAYS, msPerDay. lia.
Defined.

(** ** Instances on the sample data *)

Lemma partition_is_a_split_witness :
  dashboardBatches 400000000 [sample_stray; sample_finalized]
  ++ archivedBatches 400000000 [sample_stray; sample_finalized]
  ≡ₚ [sample_stray; sample_finalized]
  ∧ (length (dashboardBatches 400000000 [sample_stray; sample_finalized])
     + length (archivedBatches 400000000 [sample_stray; sample_finalized]))%nat
    = length [sample_stray; sample_finalized]
  ∧ ∀ b, b ∈ dashboardBatches 400000000 [sample_stray; sample_finalized] →
         b ∉ archivedBatches 400000000 [sample_stray; sample_finalized].
Proof. exact (partition_is_a_split 400000000 [sample_stray; sample_finalized]). Defined.

Lemma BatchCard_badge_witness :
  (BatchCard_statusText sample_pending 3000 = "ATRASADO"
   ↔ Batch.status sample_pending = pending
     ∧ Batch.estimatedReturnDate sample_pending < 3000)
  ∧ (∀ l t, sample_finalized ∈ archivedBatches t l →
            BatchCard_statusText sample_finalized 3000 = "FINALIZADO").
Proof.
  split.
  - apply (BatchCard_badge sample_pending 3000).
  - apply (BatchCard_badge sample_finalized 3000).
Defined.

Lemma deleteDeliveryPerson_on_the_panel_witness :
  ∃ st',
    deleteDeliveryPerson "C2"
      (mkState [sample_finalized] [sample_person; sample_idle] ∅) = Normal st'
    ∧ performance (batches st') (deliveryPeople st') !! "C2" = None
    ∧ ∀ k, k ≠ "C2" →
           performance (batches st') (deliveryPeople st') !! k
           = performance [sample_finalized] [sample_person; sample_idle] !! k.
Proof.
  exact (deleteDeliveryPerson_on_the_panel "C2"
           (mkState [sample_finalized] [sample_person; sample_idle] ∅)).
Defined.
